(** * Verification of the aoc22 puzzle solutions (day1, day2, day3)

    Shallow embedding of [src/day1.rs], [src/day2.rs] and [src/day3.rs].

    Conventions of the embedding:
    - a Rust [&str] is the list of its Unicode scalar values, each an [N];
      [str::len] is its length in bytes (the sum of the UTF-8 widths);
    - [usize] is [N] in day 1, whose sums of parsed numbers can leave the
      64-bit range: [+=] in [group_stashes] and [Iterator::sum] are written
      out with the overflow check of a debug build, which panics; the small
      scores and priorities of days 2 and 3 are [nat];
    - [Result<_, Report>] is [result]; an eyre [Report] is the inductive
      [Report] below naming which [bail!]/[ensure!] or parse failure it is;
      a panic of the Rust code is the [Panic] report (it aborts the program);
    - a [HashSet<char>] is a duplicate-free list of chars.  Rust iterates a
      hash set in an unspecified order; every use below only asks whether
      the set has zero, one or more elements, so the order of the list is
      irrelevant to the results. *)

From Stdlib Require Import List Arith NArith Lia Bool.
From Stdlib Require Import Sorting.Permutation Sorting.Sorted.
From Stdlib Require Import String Ascii.
Import ListNotations.

(** ** Results and errors *)

Inductive Report : Type :=
  | ParseError                 (* [str::parse] / move parsing failed *)
  | LengthError                (* [ensure!(input.len() == 3, ...)] *)
  | UnexpectedEnd              (* [bail!("unexpected end of input")] *)
  | UnexpectedInput            (* [bail!("unexpected input")] *)
  | ResolutionError            (* [bail!("no possible move found ...")] *)
  | NoIntersection             (* [bail!("no intersection(s) found")] *)
  | MoreThanOneIntersection    (* [ensure!(..., "more than one intersection found")] *)
  | PriorityError              (* [bail!("no priority for item type")] *)
  | Panic.                     (* a panic: overflow, [split_at] off a char boundary *)

Inductive result (A : Type) : Type :=
  | Ok (a : A)
  | Err (e : Report).
Arguments Ok {A} a.
Arguments Err {A} e.

Definition bind {A B} (r : result A) (f : A -> result B) : result B :=
  match r with Ok a => f a | Err e => Err e end.

Definition rmap {A B} (f : A -> B) (r : result A) : result B :=
  match r with Ok a => Ok (f a) | Err e => Err e end.

(** [Iterator<Item = Result<T, E>>::collect::<Result<Vec<T>, E>>()]:
    stops at the first error. *)
Fixpoint collect {A} (l : list (result A)) : result (list A) :=
  match l with
  | [] => Ok []
  | Ok a :: l' => rmap (cons a) (collect l')
  | Err e :: _ => Err e
  end.

(** ** Rust strings *)

Definition rstr := list N.

(** Width of a scalar value in UTF-8. *)
Definition utf8_width (c : N) : nat :=
  if (c <? 128)%N then 1 else if (c <? 2048)%N then 2
  else if (c <? 65536)%N then 3 else 4.

(** [str::len]: length in bytes. *)
Definition str_len (s : rstr) : nat := fold_right (fun c n => (utf8_width c + n)%nat) 0 s.

(** Literal helper: an ASCII [string] as a Rust string. *)
Fixpoint str (s : string) : rstr :=
  match s with
  | EmptyString => []
  | String a s' => N.of_nat (nat_of_ascii a) :: str s'
  end.

(** Lines joined with ['\n'] (a literal of a multi-line input). *)
Fixpoint unlines (ls : list string) : rstr :=
  match ls with
  | [] => []
  | [l] => str l
  | l :: ls' => str l ++ 10%N :: unlines ls'
  end.

(** [str::lines]: split at ['\n'], dropping a ["\r"] right before it; a
    final ['\n'] does not start an empty last line.  [cur] holds the
    current line reversed. *)
Fixpoint lines_go (cur : list N) (s : rstr) : list rstr :=
  match s with
  | [] => match cur with [] => [] | _ => [rev cur] end
  | c :: s' =>
      if (c =? 10)%N
      then match cur with
           | 13%N :: cur' => rev cur'
           | _ => rev cur
           end :: lines_go [] s'
      else lines_go (c :: cur) s'
  end.

Definition lines (s : rstr) : list rstr := lines_go [] s.

(** ** Day 1: calorie grouping and the top-K selector *)
Module Day1.

Open Scope N_scope.

Definition usize_max : N := 18446744073709551615.

(** [usize + usize] in a debug build: panics on overflow. *)
Definition add_usize (a b : N) : result N :=
  if a + b <=? usize_max then Ok (a + b) else Err Panic.

Definition is_digit (c : N) : bool := (48 <=? c) && (c <=? 57).

Fixpoint digits_value (acc : N) (s : rstr) : option N :=
  match s with
  | [] => Some acc
  | c :: s' =>
      if is_digit c then digits_value (acc * 10 + (c - 48)) s'
      else None
  end.

(** [<usize as FromStr>::from_str]: an optional ['+'], then one or more
    ASCII digits, value at most [usize::MAX]. *)
Definition parse_usize (s : rstr) : result N :=
  let ds := match s with 43 :: s' => s' | _ => s end in
  match ds with
  | [] => Err ParseError
  | _ => match digits_value 0 ds with
         | Some v => if v <=? usize_max then Ok v else Err ParseError
         | None => Err ParseError
         end
  end.

Definition parse_calories (line : rstr) : result N := parse_usize line.

(** [Vec::last_mut]-update of the last element, or [push] when empty. *)
Fixpoint add_to_last (elves : list N) (calories : N) : result (list N) :=
  match elves with
  | [] => Ok [calories]
  | [elf] => rmap (fun v => [v]) (add_usize elf calories)
  | e :: elves' => rmap (cons e) (add_to_last elves' calories)
  end.

(** The closure given to [try_fold]. *)
Definition group_step (elves : list N) (food : rstr) : result (list N) :=
  match food with
  | [] => Ok (elves ++ [0])
  | _ => bind (parse_calories food) (fun calories => add_to_last elves calories)
  end.

Fixpoint try_fold {A B} (f : A -> B -> result A) (acc : A) (l : list B) : result A :=
  match l with
  | [] => Ok acc
  | x :: l' => match f acc x with Ok acc' => try_fold f acc' l' | Err e => Err e end
  end.

Definition group_stashes (input : rstr) : result (list N) :=
  try_fold group_step [] (lines input).

(** [Vec::sort] on [usize]: every correct sort of a list of naturals
    returns the same list, here computed by insertion. *)
Fixpoint insert (v : N) (l : list N) : list N :=
  match l with
  | [] => [v]
  | x :: l' => if v <=? x then v :: x :: l' else x :: insert v l'
  end.

Definition sort (l : list N) : list N := fold_left (fun acc x => insert x acc) l [].

(** [for prev_max in maxes.iter_mut() { if prev_max < current { *prev_max = current; break } }] *)
Fixpoint replace_first_less (maxes : list N) (current_value : N) : list N :=
  match maxes with
  | [] => []
  | prev_max :: rest =>
      if prev_max <? current_value then current_value :: rest
      else prev_max :: replace_first_less rest current_value
  end.

(** One iteration of the loop body of [multi_max], ending in [maxes.sort()]. *)
Definition multi_max_step (count : nat) (maxes : list N) (current_value : N) : list N :=
  sort (if (List.length maxes <? count)%nat then maxes ++ [current_value]
        else replace_first_less maxes current_value).

Definition multi_max (xs : list N) (count : nat) : list N :=
  fold_left (multi_max_step count) xs [].

(** [Iterator::max().unwrap_or_default()] *)
Definition max_or_default (l : list N) : N := fold_left N.max l 0.

(** [Iterator::sum] over [usize] in a debug build. *)
Definition sum_usize (l : list N) : result N :=
  try_fold add_usize 0 l.

Definition part1 (input : rstr) : result N :=
  rmap max_or_default (group_stashes input).

Definition part2 (input : rstr) : result N :=
  bind (group_stashes input) (fun stashes => sum_usize (multi_max stashes 3)).

Close Scope N_scope.
End Day1.


(** ** Day 2: the move-outcome resolver *)
Module Day2.

(** [std::cmp::Ordering] is [comparison]: [Lt] = [Less], [Eq] = [Equal],
    [Gt] = [Greater]. *)

Inductive Round := PlayerLose | Draw | PlayerWin.

Definition Round_score (r : Round) : nat :=
  match r with PlayerLose => 0 | Draw => 3 | PlayerWin => 6 end.

Inductive OpponentMove := ORock | OPaper | OScissors.

(** [OpponentMove::parse] *)
Definition OpponentMove_parse (input : option N) : result OpponentMove :=
  match input with
  | Some 65%N => Ok ORock
  | Some 66%N => Ok OPaper
  | Some 67%N => Ok OScissors
  | None => Err UnexpectedEnd
  | _ => Err UnexpectedInput
  end.

Inductive PlayerMove := PRock | PPaper | PScissors.

Definition PlayerMove_score (m : PlayerMove) : nat :=
  match m with PRock => 1 | PPaper => 2 | PScissors => 3 end.

(** [PlayerMove::iter()], derived by [EnumIter] in declaration order. *)
Definition PlayerMove_iter : list PlayerMove := [PRock; PPaper; PScissors].

(** [PlayerMove::parse] *)
Definition PlayerMove_parse (input : option N) : result PlayerMove :=
  match input with
  | Some 88%N => Ok PRock
  | Some 89%N => Ok PPaper
  | Some 90%N => Ok PScissors
  | None => Err UnexpectedEnd
  | _ => Err UnexpectedInput
  end.

(** The two [PartialOrd] impls generated by [duplicate_item] from one body:
    [local = OpponentMove, target = PlayerMove] ... *)
Definition partial_cmp_op (self : OpponentMove) (other : PlayerMove) : option comparison :=
  match self with
  | ORock => match other with PRock => Some Eq | PPaper => Some Lt | PScissors => Some Gt end
  | OPaper => match other with PRock => Some Gt | PPaper => Some Eq | PScissors => Some Lt end
  | OScissors => match other with PRock => Some Lt | PPaper => Some Gt | PScissors => Some Eq end
  end.

(** ... and [local = PlayerMove, target = OpponentMove]. *)
Definition partial_cmp_po (self : PlayerMove) (other : OpponentMove) : option comparison :=
  match self with
  | PRock => match other with ORock => Some Eq | OPaper => Some Lt | OScissors => Some Gt end
  | PPaper => match other with ORock => Some Gt | OPaper => Some Eq | OScissors => Some Lt end
  | PScissors => match other with ORock => Some Lt | OPaper => Some Gt | OScissors => Some Eq end
  end.

Inductive PlayerConstraint := CDraw | CPlayerWin | CPlayerLose.

(** [PlayerConstraint::parse] *)
Definition PlayerConstraint_parse (input : option N) : result PlayerConstraint :=
  match input with
  | Some 88%N => Ok CPlayerLose
  | Some 89%N => Ok CDraw
  | Some 90%N => Ok CPlayerWin
  | None => Err UnexpectedEnd
  | _ => Err UnexpectedInput
  end.

(** [impl PartialEq<PlayerConstraint> for Round] *)
Definition Round_eq_constraint (self : Round) (other : PlayerConstraint) : bool :=
  match self, other with
  | Draw, CDraw | PlayerWin, CPlayerWin | PlayerLose, CPlayerLose => true
  | _, _ => false
  end.

(** [evaluate_round]; the [else { unreachable!() }] branch is a panic. *)
Definition evaluate_round (opponent : OpponentMove) (player : PlayerMove) : result Round :=
  match partial_cmp_op opponent player with
  | Some Lt => Ok PlayerWin
  | Some Eq => Ok Draw
  | Some Gt => Ok PlayerLose
  | None => Err Panic
  end.

(** [desired_move]: the [for] loop over [PlayerMove::iter()], then [bail!]. *)
Fixpoint desired_move_loop (opponent : OpponentMove) (constraint : PlayerConstraint)
    (moves : list PlayerMove) : result PlayerMove :=
  match moves with
  | [] => Err ResolutionError
  | possible_move :: moves' =>
      match evaluate_round opponent possible_move with
      | Ok r => if Round_eq_constraint r constraint then Ok possible_move
                else desired_move_loop opponent constraint moves'
      | Err e => Err e
      end
  end.

Definition desired_move (opponent : OpponentMove) (constraint : PlayerConstraint)
  : result PlayerMove :=
  desired_move_loop opponent constraint PlayerMove_iter.

(** [chars.next()] on the char list: the head, and the rest. *)
Definition next (cs : rstr) : option N * rstr :=
  match cs with [] => (None, []) | c :: cs' => (Some c, cs') end.

(** [parse_round] (direct mode). *)
Definition parse_round (input : rstr) : result (OpponentMove * PlayerMove) :=
  if negb (Nat.eqb (str_len input) 3) then Err LengthError else
  let (c1, chars) := next input in
  bind (OpponentMove_parse c1) (fun opponent =>
  let (_, chars) := next chars in
  let (c3, _) := next chars in
  bind (PlayerMove_parse c3) (fun player =>
  Ok (opponent, player))).

(** [parse_constraint] (constraint mode). *)
Definition parse_constraint (input : rstr) : result (OpponentMove * PlayerConstraint) :=
  if negb (Nat.eqb (str_len input) 3) then Err LengthError else
  let (c1, chars) := next input in
  bind (OpponentMove_parse c1) (fun opponent =>
  let (_, chars) := next chars in
  let (c3, _) := next chars in
  bind (PlayerConstraint_parse c3) (fun player =>
  Ok (opponent, player))).

Definition round_score (opponent : OpponentMove) (player : PlayerMove) : result nat :=
  rmap (fun r => Round_score r + PlayerMove_score player) (evaluate_round opponent player).

(** [parse_rounds]: every line through [parser], stopping at the first error. *)
Definition parse_rounds {T} (input : rstr) (parser : rstr -> result (OpponentMove * T))
  : result (list (OpponentMove * T)) :=
  collect (map parser (lines input)).

(** [score_rounds]: the [usize] sum of the round scores (a panic inside
    [round_score] is the [unreachable!()] of [evaluate_round]). *)
Definition score_rounds (rounds : list (OpponentMove * PlayerMove)) : result N :=
  bind (collect (map (fun '(opponent, player) => round_score opponent player) rounds))
       (fun scores => Day1.sum_usize (map N.of_nat scores)).

(** [reconstruct_rounds] *)
Definition reconstruct_rounds (rounds : list (OpponentMove * PlayerConstraint))
  : result (list (OpponentMove * PlayerMove)) :=
  collect (map (fun '(opponent, constraint) =>
                  rmap (fun player_move => (opponent, player_move))
                       (desired_move opponent constraint)) rounds).

Definition part1 (input : rstr) : result N :=
  bind (parse_rounds input parse_round) score_rounds.

Definition part2 (input : rstr) : result N :=
  bind (bind (parse_rounds input parse_constraint) reconstruct_rounds) score_rounds.

End Day2.

(** ** Day 3: the rucksack / group priority scorer *)
Module Day3.

(** [PRIORITY]: [('a'..='z').chain('A'..='Z').enumerate()], flipped and
    shifted to 1-based counts, collected into a map (an association list;
    no key repeats, so the map has exactly these entries). *)
Definition char_range (lo hi : N) : list N :=
  map (fun i => lo + N.of_nat i)%N (seq 0 (N.to_nat (hi - lo) + 1)).

Definition PRIORITY : list (N * nat) :=
  map (fun '(i, c) => (c, i + 1))
      (combine (seq 0 52) (char_range 97 122 ++ char_range 65 90)).

Fixpoint assoc_get (k : N) (m : list (N * nat)) : option nat :=
  match m with
  | [] => None
  | (k', v) :: m' => if (k =? k')%N then Some v else assoc_get k m'
  end.

(** [calculate_priority] *)
Definition calculate_priority (item_type : N) : result nat :=
  match assoc_get item_type PRIORITY with
  | Some priority => Ok priority
  | None => Err PriorityError
  end.

(** [HashSet<char>] *)
Definition mem (c : N) (s : list N) : bool := existsb (N.eqb c) s.

(** [chars().collect::<HashSet<_>>()]: insertion, ignoring duplicates. *)
Definition hs_of_chars (s : rstr) : list N :=
  fold_left (fun acc c => if mem c acc then acc else acc ++ [c]) s [].

(** [HashSet::intersection]: the elements of [a] that are in [b]. *)
Definition hs_intersection (a b : list N) : list N := filter (fun c => mem c b) a.

(** [str::split_at]: panics when the byte index is not a char boundary. *)
Fixpoint split_at (s : rstr) (mid : nat) : result (rstr * rstr) :=
  match mid with
  | O => Ok ([], s)
  | _ => match s with
         | [] => Err Panic
         | c :: s' =>
             if Nat.ltb mid (utf8_width c) then Err Panic
             else rmap (fun '(a, b) => (c :: a, b)) (split_at s' (mid - utf8_width c))
         end
  end.

(** [Compartment] and [Compartment::parse] *)
Definition Compartment_parse (input : rstr) : list N := hs_of_chars input.

(** [Rucksack::calculate_item_type] *)
Definition calculate_item_type (first second : list N) : result N :=
  match hs_intersection first second with
  | [] => Err NoIntersection
  | intersection :: rest =>
      match rest with
      | [] => Ok intersection
      | _ => Err MoreThanOneIntersection
      end
  end.

Record Rucksack := { contents : rstr; priority : nat }.

(** [Rucksack::parse] *)
Definition Rucksack_parse (input : rstr) : result Rucksack :=
  let delimiter := Nat.div (str_len input) 2 in
  bind (split_at input delimiter) (fun '(first, second) =>
  let first := Compartment_parse first in
  let second := Compartment_parse second in
  bind (calculate_item_type first second) (fun item_type =>
  bind (calculate_priority item_type) (fun priority =>
  Ok {| contents := input; priority := priority |}))).

Record Group := { rucksacks : list Rucksack }.

(** [Group::parse] *)
Definition Group_parse (lines : list rstr) : result Group :=
  rmap (fun rs => {| rucksacks := rs |}) (collect (map Rucksack_parse lines)).

(** The closure folded over the rucksacks in [Group::score]. *)
Definition group_fold_step (acc : list N) (sack : Rucksack) : list N :=
  let contents := hs_of_chars (contents sack) in
  match acc with
  | [] => contents
  | _ => filter (fun c => mem c contents) acc
  end.

(** [Group::score] *)
Definition Group_score (self : Group) : result nat :=
  match fold_left group_fold_step (rucksacks self) [] with
  | [] => Err NoIntersection
  | group_type :: rest =>
      match rest with
      | [] => calculate_priority group_type
      | _ => Err MoreThanOneIntersection
      end
  end.

(** [Itertools::chunks(size)] with [size > 0]: consecutive chunks of
    [size] elements, the last one possibly shorter.  [fuel] bounds the
    number of chunks. *)
Fixpoint chunks_fuel {A} (fuel size : nat) (l : list A) : list (list A) :=
  match fuel with
  | O => []
  | S fuel' =>
      match l with
      | [] => []
      | _ => firstn size l :: chunks_fuel fuel' size (skipn size l)
      end
  end.

Definition chunks {A} (size : nat) (l : list A) : list (list A) :=
  chunks_fuel (List.length l) size l.

(** [usize] sum of the priorities: each is at most 52, and a sum of them
    cannot reach [usize::MAX] for any input held in memory. *)
Definition sum_nat (l : list nat) : nat := fold_right Nat.add 0 l.

Definition score_rucksacks (sacks : list Rucksack) : nat := sum_nat (map priority sacks).

Definition score_groups (groups : list Group) : result nat :=
  rmap sum_nat (collect (map Group_score groups)).

Definition part1 (input : rstr) : result nat :=
  rmap score_rucksacks (collect (map Rucksack_parse (lines input))).

Definition part2 (input : rstr) : result nat :=
  bind (collect (map Group_parse (chunks 3 (lines input)))) score_groups.

(** Part 2 on one group of lines: [Group::parse] then [Group::score]. *)
Definition group_eval (ls : list rstr) : result nat := bind (Group_parse ls) Group_score.

End Day3.

Definition day3_sample : rstr :=
  unlines ["vJrwpWtwJgWrhcsFMMfFFhFp"; "jqHRNqRjqzjGDLGLrsFMfFZSrLrFZsSL"; "PmmdzqPrVvPwwTWBwg";
           "wMqvLMZHhHMvwLHjbvcjnnSBnvTQFn"; "ttgJtRGJQctTZtZT"; "CrZsJsPPZsGzwwsLwLmpwMDw"]%string.

(** * Sample inputs of the puzzle texts *)

Example day1_sample :
  Day1.group_stashes (unlines ["1000"; "2000"; "3000"; ""; "4000"; ""; "5000"; "6000"; "";
                              "7000"; "8000"; "9000"; ""; "10000"]%string)
  = Ok [6000; 4000; 11000; 24000; 10000]%N.
Proof. vm_compute. reflexivity. Qed.

Example day1_multi_max : Day1.multi_max [100; 200; 300; 400; 100; 500]%N 3 = [300; 400; 500]%N.
Proof. reflexivity. Qed.

Example day3_sample_part1 : Day3.part1 day3_sample = Ok 157.
Proof. vm_compute. reflexivity. Qed.

Example day3_sample_part2 : Day3.part2 day3_sample = Ok 70.
Proof. vm_compute. reflexivity. Qed.

Example day1_sample_part2 :
  Day1.part2 (unlines ["1000"; "2000"; "3000"; ""; "4000"; ""; "5000"; "6000"; "";
                       "7000"; "8000"; "9000"; ""; "10000"]%string) = Ok 45000%N.
Proof. vm_compute. reflexivity. Qed.

Example day2_sample_part1 : Day2.part1 (unlines ["A Y"; "B X"; "C Z"]%string) = Ok 15%N.
Proof. vm_compute. reflexivity. Qed.

Example day2_sample_part2 : Day2.part2 (unlines ["A Y"; "B X"; "C Z"]%string) = Ok 12%N.
Proof. vm_compute. reflexivity. Qed.

(** * Day 1: the top-K selector *)
Module MultiMaxFacts.
Import Day1.
Local Open Scope N_scope.

Definition list_sum (l : list N) : N := fold_right N.add 0 l.

Lemma insert_perm (v : N) (l : list N) : Permutation (insert v l) (v :: l).
Proof.
  induction l as [|x l IH]; simpl; [reflexivity|].
  destruct (v <=? x); [reflexivity|].
  rewrite IH. apply perm_swap.
Qed.

Lemma insert_length (v : N) (l : list N) : List.length (insert v l) = S (List.length l).
Proof. now rewrite (Permutation_length (insert_perm v l)). Qed.

Lemma insert_sorted (v : N) (l : list N) : Sorted N.le l -> Sorted N.le (insert v l).
Proof.
  induction 1 as [|x l Hs IH Hhd]; simpl; [repeat constructor|].
  destruct (N.leb_spec v x).
  - constructor; [constructor; assumption|constructor; assumption].
  - constructor; [exact IH|].
    destruct l as [|y l]; simpl.
    + constructor; lia.
    + destruct (v <=? y); constructor; [lia|inversion Hhd; assumption].
Qed.

Lemma sort_fold_perm (l acc : list N) :
  Permutation (fold_left (fun acc x => insert x acc) l acc) (l ++ acc).
Proof.
  revert acc; induction l as [|x l IH]; intros acc; simpl; [reflexivity|].
  rewrite IH, insert_perm. symmetry. apply Permutation_middle.
Qed.

Lemma sort_perm (l : list N) : Permutation (sort l) l.
Proof. unfold sort. rewrite sort_fold_perm. now rewrite app_nil_r. Qed.

Lemma sort_sorted (l : list N) : Sorted N.le (sort l).
Proof.
  unfold sort. assert (H : Sorted N.le (@nil N)) by constructor.
  revert H. generalize (@nil N). induction l as [|x l IH]; intros acc H; simpl; auto.
  apply IH, insert_sorted, H.
Qed.

Lemma sort_snoc (l : list N) (v : N) : sort (l ++ [v]) = insert v (sort l).
Proof. unfold sort. now rewrite fold_left_app. Qed.

Lemma sorted_strongly (l : list N) : Sorted N.le l -> StronglySorted N.le l.
Proof. apply Sorted_StronglySorted. intros x y z; lia. Qed.

(** Two sorted permutations of one another are equal. *)
Lemma sorted_perm_eq (l1 l2 : list N) :
  Sorted N.le l1 -> Sorted N.le l2 -> Permutation l1 l2 -> l1 = l2.
Proof.
  intros H1 H2. apply sorted_strongly in H1, H2. revert l2 H2.
  induction H1 as [|a l1 Hs1 IH Hf1]; intros l2 H2 Hp.
  - symmetry. now apply Permutation_nil.
  - destruct l2 as [|b l2]; [now apply Permutation_sym, Permutation_nil_cons in Hp|].
    inversion H2 as [|? ? Hs2 Hf2]; subst.
    assert (a = b) as <-.
    { assert (Ha : In a (b :: l2)) by (eapply Permutation_in; [exact Hp|now left]).
      assert (Hb : In b (a :: l1)) by (eapply Permutation_in; [symmetry; exact Hp|now left]).
      destruct Ha as [->|Ha]; [reflexivity|]. destruct Hb as [->|Hb]; [reflexivity|].
      rewrite Forall_forall in Hf1, Hf2. specialize (Hf1 _ Hb). specialize (Hf2 _ Ha). lia. }
    f_equal. apply IH; [assumption|]. now apply Permutation_cons_inv in Hp.
Qed.

Lemma sort_eq (l l' : list N) : Sorted N.le l' -> Permutation l l' -> sort l = l'.
Proof.
  intros Hs Hp. apply sorted_perm_eq; [apply sort_sorted|exact Hs|].
  now rewrite sort_perm.
Qed.

Lemma insert_app_le (v b : N) (A B : list N) :
  v <= b -> insert v (A ++ b :: B) = insert v A ++ b :: B.
Proof.
  intros Hv. induction A as [|a A IH]; simpl.
  - now replace (v <=? b) with true by (symmetry; apply N.leb_le; lia).
  - destruct (v <=? a); [reflexivity|]. now rewrite IH.
Qed.

Lemma insert_app_gt (v : N) (A L : list N) :
  Forall (fun a => a < v) A -> insert v (A ++ L) = A ++ insert v L.
Proof.
  induction 1 as [|a A Ha HA IH]; simpl; [reflexivity|].
  replace (v <=? a) with false by (symmetry; apply N.leb_gt; lia). now rewrite IH.
Qed.

Lemma replace_first_less_ge (v : N) (l : list N) :
  Forall (fun x => v <= x) l -> replace_first_less l v = l.
Proof.
  induction 1 as [|x l Hx Hl IH]; simpl; [reflexivity|].
  replace (x <? v) with false by (symmetry; apply N.ltb_ge; lia). now rewrite IH.
Qed.

Lemma multi_max_snoc (K : nat) (S : list N) (v : N) :
  multi_max (S ++ [v]) K = multi_max_step K (multi_max S K) v.
Proof. unfold multi_max. now rewrite fold_left_app. Qed.

(** The loop invariant: the buffer is the top [min K |S|] part of the
    sorted input seen so far. *)
Lemma multi_max_inv (K : nat) (S : list N) :
  exists A, sort S = A ++ multi_max S K /\
            List.length (multi_max S K) = Nat.min K (List.length S).
Proof.
  induction S as [|v S IH] using rev_ind.
  - exists []. simpl. split; [reflexivity|]. now rewrite Nat.min_0_r.
  - destruct IH as [A [HA Hlen]].
    rewrite multi_max_snoc, sort_snoc, length_app. simpl List.length.
    unfold multi_max_step.
    set (B := multi_max S K) in *.
    assert (HlS : List.length (sort S) = List.length S)
      by apply (Permutation_length (sort_perm S)).
    assert (Hsorted : Sorted N.le (A ++ B)) by (rewrite <- HA; apply sort_sorted).
    destruct (Nat.ltb_spec (List.length B) K) as [Hlt|Hge].
    + (* the buffer has room: push *)
      assert (HAnil : A = []).
      { destruct A as [|a A]; [reflexivity|].
        rewrite HA in HlS. simpl in HlS. rewrite length_app in HlS. lia. }
      subst A. simpl in HA.
      exists []. simpl.
      assert (Hs : sort (B ++ [v]) = insert v B).
      { apply sort_eq; [apply insert_sorted; exact Hsorted|].
        rewrite insert_perm. symmetry. apply Permutation_cons_append. }
      rewrite Hs, HA. split; [reflexivity|].
      rewrite insert_length. lia.
    + destruct B as [|b B'] eqn:HB.
      * (* count = 0 *)
        exists (insert v (sort S)). simpl. rewrite app_nil_r.
        split; [reflexivity|]. simpl in Hlen, Hge. lia.
      * apply sorted_strongly in Hsorted.
        assert (HAb : Forall (fun a => a <= b) A /\ Forall (fun x => b <= x) B' /\
                      Sorted N.le B').
        { clear -Hsorted. induction A as [|a A IHA]; simpl in Hsorted.
          - inversion Hsorted; subst. split; [constructor|].
            split; [assumption|]. now apply StronglySorted_Sorted.
          - inversion Hsorted as [|? ? Hs Hf]; subst.
            destruct (IHA Hs) as [H1 H2]. split; [|exact H2].
            constructor; [|exact H1].
            rewrite Forall_forall in Hf. apply Hf. apply in_or_app. right. now left. }
        destruct HAb as [HAle [HB'ge HB'sorted]].
        simpl replace_first_less.
        destruct (N.ltb_spec b v) as [Hbv|Hvb].
        -- (* the smallest kept value is replaced *)
           exists (A ++ [b]).
           assert (Hs : sort (v :: B') = insert v B').
           { apply sort_eq; [now apply insert_sorted|]. now rewrite insert_perm. }
           rewrite Hs, HA, insert_app_gt.
           ++ simpl. replace (v <=? b) with false by (symmetry; apply N.leb_gt; lia).
              rewrite <- app_assoc. split; [reflexivity|].
              rewrite insert_length. simpl in Hlen, Hge |- *. lia.
           ++ eapply Forall_impl; [|exact HAle]. simpl. intros a Ha. lia.
        -- (* the value is discarded *)
           exists (insert v A).
           rewrite replace_first_less_ge.
           ++ assert (Hs : sort (b :: B') = b :: B').
              { apply sort_eq; [|reflexivity]. apply StronglySorted_Sorted.
                constructor; [now apply sorted_strongly|exact HB'ge]. }
              rewrite Hs, HA, insert_app_le by lia.
              split; [reflexivity|]. simpl in Hlen, Hge |- *. lia.
           ++ eapply Forall_impl; [|exact HB'ge]. simpl. intros x Hx. lia.
Qed.

Lemma sorted_app_r (A B : list N) : Sorted N.le (A ++ B) -> Sorted N.le B.
Proof.
  induction A as [|a A IH]; simpl; [trivial|].
  intros H. apply Sorted_inv in H. now apply IH.
Qed.

Lemma sorted_app_le (A B : list N) :
  Sorted N.le (A ++ B) -> Forall (fun r => Forall (fun t => r <= t) B) A.
Proof.
  intros H. apply sorted_strongly in H. induction A as [|a A IH]; simpl in H; [constructor|].
  inversion H as [|? ? Hs Hf]; subst. constructor; [|now apply IH].
  rewrite Forall_forall in Hf |- *. intros t Ht. apply Hf, in_or_app. now right.
Qed.

Lemma app_same_length_tail (A A' T T' : list N) :
  A ++ T = A' ++ T' -> List.length T = List.length T' -> T = T'.
Proof.
  intros H Hl.
  assert (HA : List.length A = List.length A').
  { apply (f_equal (@List.length N)) in H. rewrite !length_app in H. lia. }
  revert A' H HA. induction A as [|a A IH]; intros [|a' A'] H HA; simpl in *;
    try discriminate; [exact H|].
  injection H as _ H. eapply IH; [exact H|lia].
Qed.

End MultiMaxFacts.

(** * Day 1: calorie grouping *)
Module GroupFacts.
Import Day1.
Local Open Scope N_scope.

Lemma try_fold_app {A B} (f : A -> B -> result A) (acc : A) (l1 l2 : list B) :
  try_fold f acc (l1 ++ l2) = bind (try_fold f acc l1) (fun a => try_fold f a l2).
Proof.
  revert acc; induction l1 as [|x l1 IH]; intros acc; simpl; [reflexivity|].
  destruct (f acc x); [apply IH|reflexivity].
Qed.

Lemma try_fold_blanks (g : list N) (k : nat) :
  try_fold group_step g (repeat [] k) = Ok (g ++ repeat 0 k).
Proof.
  revert g; induction k as [|k IH]; intros g; simpl; [now rewrite app_nil_r|].
  rewrite IH, <- app_assoc. reflexivity.
Qed.

Lemma add_to_last_app (P acc : list N) (v : N) :
  acc <> [] -> add_to_last (P ++ acc) v = rmap (app P) (add_to_last acc v).
Proof.
  intros Hne. induction P as [|p P IH]; simpl.
  - now destruct (add_to_last acc v).
  - destruct (P ++ acc) as [|y l] eqn:E; [now destruct P, acc|].
    rewrite IH. now destruct (add_to_last acc v).
Qed.

Lemma add_to_last_nonempty (acc : list N) (v : N) (r : list N) :
  add_to_last acc v = Ok r -> r <> [].
Proof.
  destruct acc as [|x acc]; simpl; [intros [= <-]; discriminate|].
  revert x r; induction acc as [|y acc IH]; intros x r; simpl.
  - destruct (add_usize x v); simpl; intros [= <-]; discriminate.
  - specialize (IH y). destruct (match acc with [] => _ | _ => _ end); simpl;
      intros H; inversion H; discriminate.
Qed.

Lemma group_step_app (P acc : list N) (l : rstr) :
  acc <> [] -> group_step (P ++ acc) l = rmap (app P) (group_step acc l).
Proof.
  intros Hne. unfold group_step. destruct l as [|c l].
  - simpl. now rewrite <- app_assoc.
  - destruct (parse_calories (c :: l)); simpl; [|reflexivity].
    now apply add_to_last_app.
Qed.

Lemma group_step_nonempty (acc : list N) (l : rstr) (r : list N) :
  group_step acc l = Ok r -> r <> [].
Proof.
  unfold group_step. destruct l as [|c l].
  - intros [= <-]. destruct acc; discriminate.
  - destruct (parse_calories (c :: l)); simpl; [|discriminate].
    apply add_to_last_nonempty.
Qed.

Lemma try_fold_group_app (P acc : list N) (ls : list rstr) :
  acc <> [] ->
  try_fold group_step (P ++ acc) ls = rmap (app P) (try_fold group_step acc ls).
Proof.
  revert acc; induction ls as [|l ls IH]; intros acc Hne; simpl; [reflexivity|].
  rewrite group_step_app by exact Hne.
  destruct (group_step acc l) as [acc'|e] eqn:E; simpl; [|reflexivity].
  apply IH. eapply group_step_nonempty; exact E.
Qed.

Lemma digits_value_bound (s : rstr) (acc v : N) : digits_value acc s = Some v -> acc <= v.
Proof.
  revert acc; induction s as [|c s IH]; intros acc; simpl; [intros [= ->]; lia|].
  destruct (is_digit c); [|discriminate]. intros H. apply IH in H. nia.
Qed.

Lemma parse_calories_bound (l : rstr) (v : N) : parse_calories l = Ok v -> v <= usize_max.
Proof.
  unfold parse_calories, parse_usize.
  destruct (match l with 43 :: s' => s' | _ => l end) as [|c ds]; [discriminate|].
  destruct (digits_value 0 (c :: ds)) as [w|]; [|discriminate].
  destruct (N.leb_spec w usize_max); intros Hr; inversion Hr; subst; lia.
Qed.

End GroupFacts.

(** * Day 2: the move-outcome relation and its inverse *)
Module MoveFacts.
Import Day2.

(** The same-named move of the other participant. *)
Definition player_of (o : OpponentMove) : PlayerMove :=
  match o with ORock => PRock | OPaper => PPaper | OScissors => PScissors end.

Definition opponent_of (p : PlayerMove) : OpponentMove :=
  match p with PRock => ORock | PPaper => OPaper | PScissors => OScissors end.

Lemma PlayerMove_iter_split (pre post : list PlayerMove) (m : PlayerMove) :
  PlayerMove_iter = pre ++ m :: post ->
  (pre = [] /\ m = PRock) \/ (pre = [PRock] /\ m = PPaper) \/
  (pre = [PRock; PPaper] /\ m = PScissors).
Proof.
  unfold PlayerMove_iter. intros H.
  destruct pre as [|x [|y [|z pre]]]; simpl in H; injection H; intros; subst; auto.
  destruct pre; discriminate.
Qed.

End MoveFacts.

(** * Day 3: the priority table *)
Module PriorityFacts.
Import Day3.
Local Open Scope N_scope.

(** The characters [a..z] and [A..Z]. *)
Definition is_lower (c : N) : bool := (97 <=? c) && (c <=? 122).
Definition is_upper (c : N) : bool := (65 <=? c) && (c <=? 90).
Definition alphabetic (c : N) : bool := is_lower c || is_upper c.

Lemma PRIORITY_eq :
  PRIORITY = map (fun c => (c, N.to_nat (c - 96))) (char_range 97 122) ++
             map (fun c => (c, (N.to_nat (c - 64) + 26)%nat)) (char_range 65 90).
Proof. vm_compute. reflexivity. Qed.

Lemma assoc_get_app (k : N) (m1 m2 : list (N * nat)) :
  assoc_get k (m1 ++ m2) =
  match assoc_get k m1 with Some v => Some v | None => assoc_get k m2 end.
Proof.
  induction m1 as [|[k' v'] m1 IH]; simpl; [reflexivity|].
  destruct (k =? k'); [reflexivity|exact IH].
Qed.

Lemma assoc_get_keys (k : N) (f : N -> nat) (l : list N) :
  assoc_get k (map (fun c => (c, f c)) l) = if mem k l then Some (f k) else None.
Proof.
  unfold mem. induction l as [|c l IH]; simpl; [reflexivity|].
  destruct (N.eqb_spec k c) as [->|]; simpl; [reflexivity|exact IH].
Qed.

Lemma mem_char_range (k lo hi : N) :
  lo <= hi -> mem k (char_range lo hi) = (lo <=? k) && (k <=? hi).
Proof.
  intros Hle. unfold mem, char_range.
  apply eq_true_iff_eq. rewrite existsb_exists, andb_true_iff, N.leb_le, N.leb_le.
  split.
  - intros [x [Hx Heq]]. apply N.eqb_eq in Heq. subst x.
    apply in_map_iff in Hx. destruct Hx as [i [<- Hi]]. apply in_seq in Hi. lia.
  - intros Hk. exists k. rewrite N.eqb_refl. split; [|reflexivity].
    apply in_map_iff. exists (N.to_nat (k - lo)). split; [lia|].
    apply in_seq. lia.
Qed.

Lemma calculate_priority_eq (c : N) :
  calculate_priority c =
  if is_lower c then Ok (N.to_nat (c - 96))
  else if is_upper c then Ok (N.to_nat (c - 64) + 26)%nat
  else Err PriorityError.
Proof.
  unfold calculate_priority, is_lower, is_upper.
  rewrite PRIORITY_eq, assoc_get_app, !assoc_get_keys, !mem_char_range by lia.
  destruct ((97 <=? c) && (c <=? 122)); [reflexivity|].
  destruct ((65 <=? c) && (c <=? 90)); reflexivity.
Qed.

End PriorityFacts.

(** * Day 2: line parsing *)
Module ParseFacts.
Import Day2.
Local Open Scope N_scope.

Lemma utf8_width_pos (c : N) : (1 <= utf8_width c)%nat.
Proof. unfold utf8_width. destruct (c <? 128), (c <? 2048), (c <? 65536); lia. Qed.

Lemma utf8_width_one (c : N) : utf8_width c = 1%nat <-> c < 128.
Proof.
  unfold utf8_width. destruct (N.ltb_spec c 128); [tauto|].
  destruct (c <? 2048), (c <? 65536); split; intros; lia.
Qed.

Lemma str_len_ge (s : rstr) : (List.length s <= str_len s)%nat.
Proof.
  induction s as [|c s IH]; simpl; [lia|]. pose proof (utf8_width_pos c). lia.
Qed.

Ltac decode_char H :=
  let p := fresh "p" in
  match type of H with
  | context [Some ?a] => destruct a as [|p]; [discriminate H|];
                         repeat (destruct p as [p|p|]; try discriminate H)
  end.

Lemma OpponentMove_parse_some (a : N) (o : OpponentMove) :
  OpponentMove_parse (Some a) = Ok o -> a = 65 \/ a = 66 \/ a = 67.
Proof. intros H. decode_char H; auto. Qed.

Lemma PlayerMove_parse_some (b : N) (p : PlayerMove) :
  PlayerMove_parse (Some b) = Ok p -> b = 88 \/ b = 89 \/ b = 90.
Proof. intros H. decode_char H; auto. Qed.

(** What [parse_round] accepts: exactly the lines of three bytes made of an
    opponent letter, one one-byte (ASCII) separator and a player letter. *)
Lemma parse_round_ok_iff (s : rstr) (o : OpponentMove) (p : PlayerMove) :
  parse_round s = Ok (o, p) <->
  exists a m b, s = [a; m; b] /\ m < 128 /\
    OpponentMove_parse (Some a) = Ok o /\ PlayerMove_parse (Some b) = Ok p.
Proof.
  split.
  - unfold parse_round.
    destruct (Nat.eqb_spec (str_len s) 3) as [Hlen|]; cbn -[str_len]; [|discriminate].
    destruct s as [|a s]; cbn -[OpponentMove_parse PlayerMove_parse]; [discriminate|].
    destruct (OpponentMove_parse (Some a)) as [o'|] eqn:Ho;
      cbn -[OpponentMove_parse PlayerMove_parse]; [|discriminate].
    destruct s as [|m s]; cbn -[OpponentMove_parse PlayerMove_parse]; [discriminate|].
    destruct s as [|b rest]; cbn -[OpponentMove_parse PlayerMove_parse]; [discriminate|].
    destruct (PlayerMove_parse (Some b)) as [p'|] eqn:Hp;
      cbn -[OpponentMove_parse PlayerMove_parse]; [|discriminate].
    intros [= <- <-].
    apply OpponentMove_parse_some in Ho as Ha. apply PlayerMove_parse_some in Hp as Hb.
    simpl in Hlen.
    assert (Hwa : utf8_width a = 1%nat) by (apply utf8_width_one; lia).
    assert (Hwb : utf8_width b = 1%nat) by (apply utf8_width_one; lia).
    pose proof (utf8_width_pos m). pose proof (str_len_ge rest).
    destruct rest as [|r rest]; [|simpl in *; pose proof (utf8_width_pos r); lia].
    exists a, m, b. split; [reflexivity|]. split; [|auto].
    apply utf8_width_one. simpl in Hlen. lia.
  - intros (a & m & b & -> & Hm & Ho & Hp).
    apply OpponentMove_parse_some in Ho as Ha. apply PlayerMove_parse_some in Hp as Hb.
    assert (Hwa : utf8_width a = 1%nat) by (apply utf8_width_one; lia).
    assert (Hwb : utf8_width b = 1%nat) by (apply utf8_width_one; lia).
    assert (Hwm : utf8_width m = 1%nat) by (apply utf8_width_one; lia).
    unfold parse_round. cbn -[OpponentMove_parse PlayerMove_parse utf8_width].
    rewrite Hwa, Hwb, Hwm. cbn -[OpponentMove_parse PlayerMove_parse].
    rewrite Ho. cbn -[PlayerMove_parse]. rewrite Hp. reflexivity.
Qed.

End ParseFacts.

(** * Day 3: rucksacks and groups *)
Module GroupScoreFacts.
Import Day3.

Lemma mem_In (c : N) (l : list N) : mem c l = true <-> In c l.
Proof.
  unfold mem. rewrite existsb_exists. split.
  - intros [x [Hx Heq]]. apply N.eqb_eq in Heq. now subst.
  - intros Hc. exists c. split; [exact Hc|apply N.eqb_refl].
Qed.

Lemma hs_fold_spec (s acc : list N) :
  NoDup acc ->
  NoDup (fold_left (fun acc c => if mem c acc then acc else acc ++ [c]) s acc) /\
  (forall x, In x (fold_left (fun acc c => if mem c acc then acc else acc ++ [c]) s acc) <->
             In x acc \/ In x s).
Proof.
  revert acc; induction s as [|c s IH]; intros acc Hacc; simpl.
  - split; [exact Hacc|]. intros x; tauto.
  - destruct (mem c acc) eqn:Hm.
    + apply mem_In in Hm. destruct (IH acc Hacc) as [H1 H2]. split; [exact H1|].
      intros x. rewrite H2. split; [tauto|]. intros [H|[->|H]]; auto.
    + assert (Hn : ~ In c acc) by (intros H; apply mem_In in H; congruence).
      assert (Hnd : NoDup (acc ++ [c])).
      { apply NoDup_app; auto using NoDup_cons, NoDup_nil.
        intros x Hx [<-|[]]. contradiction. }
      destruct (IH _ Hnd) as [H1 H2]. split; [exact H1|].
      intros x. rewrite H2, in_app_iff. simpl. tauto.
Qed.

Lemma hs_of_chars_spec (s : rstr) :
  NoDup (hs_of_chars s) /\ (forall x, In x (hs_of_chars s) <-> In x s).
Proof.
  destruct (hs_fold_spec s [] (NoDup_nil _)) as [H1 H2].
  split; [exact H1|]. intros x. unfold hs_of_chars. rewrite H2. simpl. tauto.
Qed.

Lemma Rucksack_parse_contents (l : rstr) (r : Rucksack) :
  Rucksack_parse l = Ok r -> contents r = l.
Proof.
  unfold Rucksack_parse.
  destruct (split_at l _) as [[first second]|]; simpl; [|discriminate].
  destruct (calculate_item_type _ _); simpl; [|discriminate].
  destruct (calculate_priority _); simpl; [|discriminate].
  now intros [= <-].
Qed.

Lemma collect_rucksacks_ok (ls : list rstr) :
  Forall (fun l => exists r, Rucksack_parse l = Ok r) ls ->
  exists rs, collect (map Rucksack_parse ls) = Ok rs /\ map contents rs = ls.
Proof.
  induction 1 as [|l ls [r Hr] _ [rs [Hc Hm]]]; [now exists []|].
  exists (r :: rs). simpl. rewrite Hr, Hc. simpl. split; [reflexivity|].
  now rewrite Hm, (Rucksack_parse_contents l r Hr).
Qed.

Lemma collect_err {A} (l : list (result A)) (e : Report) :
  In (Err e) l -> exists e', collect l = Err e'.
Proof.
  induction l as [|x l IH]; simpl; [tauto|].
  intros [->|Hin]; [now exists e|].
  destruct x as [a|e0]; [|now exists e0].
  destruct (IH Hin) as [e' ->]. now exists e'.
Qed.

(** The fold of [Group::score] once its accumulator is non-empty: the
    intersection of the accumulator with every rucksack's characters. *)
Lemma group_fold_inv (rs : list Rucksack) (acc : list N) (c : N) :
  NoDup acc -> In c acc -> Forall (fun r => In c (contents r)) rs ->
  NoDup (fold_left group_fold_step rs acc) /\
  (forall x, In x (fold_left group_fold_step rs acc) <->
             In x acc /\ Forall (fun r => In x (contents r)) rs).
Proof.
  revert acc; induction rs as [|r rs IH]; intros acc Hnd Hc Hall; simpl.
  - split; [exact Hnd|]. intros x. split; [auto|tauto].
  - inversion Hall as [|? ? Hcr Hrs]; subst.
    destruct (hs_of_chars_spec (contents r)) as [_ Hhs].
    assert (Hstep : group_fold_step acc r =
                    filter (fun x => mem x (hs_of_chars (contents r))) acc).
    { unfold group_fold_step. destruct acc; [contradiction|reflexivity]. }
    assert (Hf : forall x, In x (group_fold_step acc r) <-> In x acc /\ In x (contents r)).
    { intros x. rewrite Hstep, filter_In, mem_In, Hhs. tauto. }
    destruct (IH (group_fold_step acc r)) as [H1 H2].
    + rewrite Hstep. now apply NoDup_filter.
    + now apply Hf.
    + exact Hrs.
    + split; [exact H1|]. intros x. rewrite H2, Hf, Forall_cons_iff. tauto.
Qed.

Lemma nodup_singleton (l : list N) (c : N) :
  NoDup l -> (forall x, In x l <-> x = c) -> l = [c].
Proof.
  intros Hnd Hl. destruct l as [|a l]; [destruct (proj2 (Hl c) eq_refl)|].
  assert (a = c) as -> by (apply Hl; now left).
  inversion Hnd as [|? ? Hn _]; subst.
  destruct l as [|b l]; [reflexivity|].
  exfalso. apply Hn. assert (b = c) as -> by (apply Hl; right; now left). now left.
Qed.

(** A group of one or more valid rucksack lines whose characters have
    exactly one common element [c] is scored the priority of [c]. *)
Lemma group_eval_unique (ls : list rstr) (c : N) :
  ls <> [] ->
  Forall (fun l => exists r, Rucksack_parse l = Ok r) ls ->
  (forall x, Forall (In x) ls <-> x = c) ->
  group_eval ls = calculate_priority c.
Proof.
  intros Hne Hok Hinter.
  destruct (collect_rucksacks_ok ls Hok) as [rs [Hc Hm]].
  unfold group_eval, Group_parse. rewrite Hc. simpl. unfold Group_score. simpl.
  assert (Hin : forall x, Forall (fun r => In x (contents r)) rs <-> x = c).
  { intros x. rewrite <- Hinter, <- Hm, Forall_map. reflexivity. }
  destruct rs as [|r rs]; [subst ls; contradiction|].
  simpl.
  destruct (hs_of_chars_spec (contents r)) as [Hnd Hhs].
  assert (Hcall : Forall (fun r => In c (contents r)) (r :: rs)) by now apply Hin.
  inversion Hcall as [|? ? Hcr Hcrs]; subst.
  destruct (group_fold_inv rs (hs_of_chars (contents r)) c Hnd (proj2 (Hhs c) Hcr) Hcrs)
    as [H1 H2].
  rewrite (nodup_singleton _ c H1); [reflexivity|].
  intros x. rewrite H2, Hhs, <- Hin, Forall_cons_iff. reflexivity.
Qed.

Lemma firstn_skipn_3 {A} (g X : list A) :
  List.length g = 3 -> firstn 3 (g ++ X) = g /\ skipn 3 (g ++ X) = X.
Proof. destruct g as [|x [|y [|z [|w g]]]]; simpl; try discriminate; auto. Qed.

Lemma chunks_fuel_3 {A} (fuel : nat) (full : list (list A)) (last : list A) :
  Forall (fun g => List.length g = 3) full -> List.length last < 3 ->
  List.length full + (match last with [] => 0 | _ => 1 end) <= fuel ->
  chunks_fuel fuel 3 (List.concat full ++ last) =
  full ++ match last with [] => [] | _ => [last] end.
Proof.
  intros Hfull. revert fuel. induction Hfull as [|g full Hg Hfull IH]; intros fuel Hlast Hfuel.
  - simpl. destruct last as [|a l].
    + destruct fuel; reflexivity.
    + destruct fuel as [|fuel]; [simpl in Hfuel; lia|]. simpl.
      destruct l as [|b [|c [|d l]]]; simpl in Hlast; try lia; destruct fuel; reflexivity.
  - destruct fuel as [|fuel]; [simpl in Hfuel; lia|].
    cbn [List.concat]. rewrite <- app_assoc.
    destruct (firstn_skipn_3 g (List.concat full ++ last) Hg) as [Hf Hs].
    remember (g ++ (List.concat full ++ last)) as L eqn:HL.
    destruct L as [|x L']; [destruct g; discriminate|].
    cbn [chunks_fuel]. rewrite Hf, Hs. simpl app.
    f_equal. apply IH; [exact Hlast|]. simpl in Hfuel. lia.
Qed.

(** [chunks 3] of a list made of full groups of three followed by a shorter
    remainder: the full groups, then the remainder as a last group. *)
Lemma chunks_3 {A} (full : list (list A)) (last : list A) :
  Forall (fun g => List.length g = 3) full -> List.length last < 3 ->
  chunks 3 (List.concat full ++ last) = full ++ match last with [] => [] | _ => [last] end.
Proof.
  intros Hfull Hlast. unfold chunks. apply chunks_fuel_3; [exact Hfull|exact Hlast|].
  rewrite length_app.
  assert (Hc : List.length (List.concat full) = 3 * List.length full).
  { clear -Hfull. induction Hfull as [|g full Hg _ IH]; simpl; [reflexivity|].
    rewrite length_app, Hg, IH. lia. }
  rewrite Hc. destruct last; simpl; lia.
Qed.

End GroupScoreFacts.

(** * The claims *)
Module Claims.
Import Day1 MultiMaxFacts.

(** C1: for every count [K] and every sequence [S] of naturals,
    [multi_max S K] is sorted ascending (non-decreasing), has length
    [min K |S|], is the multiset of the [K] largest elements of [S] (it is a
    sub-multiset of [S] and no remaining element of [S] exceeds any of its
    elements), and its sum does not change when [S] is permuted.  (It holds
    for [K = 0] as well.) *)
Theorem multi_max_top_k (K : nat) (S : list N) :
  Sorted N.le (multi_max S K) /\
  List.length (multi_max S K) = Nat.min K (List.length S) /\
  (exists R, Permutation S (multi_max S K ++ R) /\
             Forall (fun r => Forall (fun t => (r <= t)%N) (multi_max S K)) R) /\
  (forall S', Permutation S S' -> list_sum (multi_max S' K) = list_sum (multi_max S K)).
Proof.
  destruct (multi_max_inv K S) as [A [HA Hlen]].
  assert (Hs : Sorted N.le (A ++ multi_max S K)) by (rewrite <- HA; apply sort_sorted).
  split; [eapply sorted_app_r; exact Hs|].
  split; [exact Hlen|].
  split.
  - exists A. split.
    + transitivity (sort S); [symmetry; apply sort_perm|]. rewrite HA. apply Permutation_app_comm.
    + now apply sorted_app_le.
  - intros S' HS'.
    destruct (multi_max_inv K S') as [A' [HA' Hlen']].
    assert (Hsort : sort S = sort S').
    { apply sort_eq; [apply sort_sorted|]. now rewrite sort_perm. }
    f_equal. apply (app_same_length_tail A' A).
    + now rewrite <- HA', <- Hsort.
    + rewrite Hlen, Hlen'. now rewrite (Permutation_length HS').
Qed.

(** C5 (counterexample): an input beginning with one blank line followed by
    a number does not yield a leading zero group: ["\n5"] groups to [[5]]. *)
Lemma group_stashes_leading_blank_cex :
  group_stashes (unlines [""; "5"]%string) = Ok [5%N] /\
  lines (unlines [""; "5"]%string) = [[]; [53%N]].
Proof. split; reflexivity. Qed.

(** C5 (amended): a blank line pushes a new total [0] into which the
    following number lines are added.  Blank lines are accepted: [k]
    trailing blank lines append [k] zero groups; [k + 1] leading blank
    lines before a number line yield only [k] leading zero groups, the
    first blank line's [0] absorbing the first number.  (The lines are
    those of [lines input], and [group_stashes input] folds [group_step]
    over them.) *)
Theorem group_stashes_blank_lines :
  (forall (ls : list rstr) (k : nat),
     try_fold group_step [] (ls ++ repeat [] k) =
     rmap (fun g => g ++ repeat 0%N k) (try_fold group_step [] ls)) /\
  (forall (k : nat) (l : rstr) (v : N) (rest : list rstr),
     parse_calories l = Ok v ->
     try_fold group_step [] (repeat [] (S k) ++ l :: rest) =
     rmap (app (repeat 0%N k)) (try_fold group_step [] (l :: rest))).
Proof.
  split.
  - intros ls k. rewrite GroupFacts.try_fold_app.
    destruct (try_fold group_step [] ls) as [g|e]; simpl; [|reflexivity].
    apply GroupFacts.try_fold_blanks.
  - intros k l v rest Hl.
    rewrite GroupFacts.try_fold_app, GroupFacts.try_fold_blanks. simpl bind.
    assert (Hne : l <> []) by (intros ->; discriminate).
    assert (Hstep : forall acc, group_step acc l = add_to_last acc v).
    { intros acc. unfold group_step. destruct l; [contradiction|]. now rewrite Hl. }
    cbn [try_fold]. rewrite !Hstep.
    replace (0%N :: repeat 0%N k) with (repeat 0%N k ++ [0%N])
      by (change (0%N :: repeat 0%N k) with (repeat 0%N (S k));
          replace (S k) with (k + 1)%nat by lia; now rewrite repeat_app).
    rewrite GroupFacts.add_to_last_app by discriminate.
    simpl. unfold add_usize.
    pose proof (GroupFacts.parse_calories_bound l v Hl) as Hb.
    replace (0 + v <=? usize_max)%N with true by (symmetry; apply N.leb_le; lia).
    cbn.
    apply (GroupFacts.try_fold_group_app (repeat 0%N k) [v] rest). discriminate.
Qed.

(** C10: on the empty input (no lines, no groups) part 1 returns [Ok 0]
    (the default of an empty maximum) and part 2 returns [Ok 0] (the sum
    of an empty top-3 selection). *)
Theorem day1_empty_input : Day1.part1 [] = Ok 0%N /\ Day1.part2 [] = Ok 0%N.
Proof. split; reflexivity. Qed.

(** C2: for every opponent move [o] and constraint [c], [desired_move o c]
    returns a move [m] (never the [ResolutionError] branch, nor any other
    error) such that [evaluate_round o m] is the round equal to [c], and
    every move before [m] in the iteration order [Rock, Paper, Scissors]
    evaluates to a round different from [c]: [m] is the first match. *)
Theorem desired_move_first_match (o : Day2.OpponentMove) (c : Day2.PlayerConstraint) :
  (exists m r,
     Day2.desired_move o c = Ok m /\
     Day2.evaluate_round o m = Ok r /\ Day2.Round_eq_constraint r c = true /\
     (forall pre post, Day2.PlayerMove_iter = pre ++ m :: post ->
        forall m', In m' pre ->
        exists r', Day2.evaluate_round o m' = Ok r' /\ Day2.Round_eq_constraint r' c = false)) /\
  (forall e, Day2.desired_move o c <> Err e).
Proof.
  split.
  - destruct o, c; eexists; eexists;
      (split; [reflexivity|]); (split; [reflexivity|]); (split; [reflexivity|]);
      intros pre post Hs m' Hin;
      destruct (MoveFacts.PlayerMove_iter_split _ _ _ Hs) as [[-> Hm]|[[-> Hm]|[-> Hm]]];
      try discriminate; simpl in Hin; intuition subst; eexists; split; reflexivity.
  - destruct o, c; discriminate.
Qed.

(** C6: the move comparison is total and antisymmetric: for an opponent
    move [o] and a player move [p] the comparison yields exactly one
    ordering [c] (so exactly one of "beats", "loses to", "draws with"),
    [Eq] exactly for the same-named moves; the reciprocal comparison of
    [p] against [o] yields the mirrored ordering; and the two impls agree:
    comparing the same-named moves in the other direction
    (player-vs-opponent for [o] against [p], opponent-vs-player for [p]
    against [o]) gives the same results. *)
Theorem move_cmp_total_antisymmetric (o : Day2.OpponentMove) (p : Day2.PlayerMove) :
  exists c,
    Day2.partial_cmp_op o p = Some c /\
    Day2.partial_cmp_po p o = Some (CompOpp c) /\
    Day2.partial_cmp_po (MoveFacts.player_of o) (MoveFacts.opponent_of p) = Some c /\
    Day2.partial_cmp_op (MoveFacts.opponent_of p) (MoveFacts.player_of o) = Some (CompOpp c) /\
    (c = Eq <-> MoveFacts.player_of o = p).
Proof.
  destruct o, p; eexists; repeat split; try reflexivity; try discriminate.
  all: intros H; discriminate H.
Qed.

(** C7: the priority lookup succeeds exactly on the 52 characters
    [a..z, A..Z] and fails with [PriorityError] on every other character;
    it is injective on them and its values are exactly [1..52]; and
    [priority('a') = 1], [priority('z') = 26], [priority('A') = 27],
    [priority('Z') = 52]. *)
Theorem priority_bijection :
  (forall c, PriorityFacts.alphabetic c = true <-> exists p, Day3.calculate_priority c = Ok p) /\
  (forall c, PriorityFacts.alphabetic c = false -> Day3.calculate_priority c = Err PriorityError) /\
  (forall c1 c2 p, Day3.calculate_priority c1 = Ok p -> Day3.calculate_priority c2 = Ok p -> c1 = c2) /\
  (forall p, (1 <= p <= 52)%nat <-> exists c, Day3.calculate_priority c = Ok p) /\
  Day3.calculate_priority 97%N = Ok 1 /\ Day3.calculate_priority 122%N = Ok 26 /\
  Day3.calculate_priority 65%N = Ok 27 /\ Day3.calculate_priority 90%N = Ok 52.
Proof.
  unfold PriorityFacts.alphabetic.
  split; [intros c; split|]; [| |split; [|split; [|split]]].
  - intros Hc. rewrite PriorityFacts.calculate_priority_eq.
    apply orb_true_iff in Hc.
    destruct (PriorityFacts.is_lower c); [eexists; reflexivity|].
    destruct Hc as [Hc|Hc]; [discriminate|]. rewrite Hc. eexists; reflexivity.
  - intros [p Hp]. rewrite PriorityFacts.calculate_priority_eq in Hp.
    destruct (PriorityFacts.is_lower c); [reflexivity|].
    destruct (PriorityFacts.is_upper c); [reflexivity|discriminate].
  - intros c Hc. rewrite PriorityFacts.calculate_priority_eq.
    apply orb_false_iff in Hc. destruct Hc as [-> ->]. reflexivity.
  - intros c1 c2 p. rewrite !PriorityFacts.calculate_priority_eq.
    unfold PriorityFacts.is_lower, PriorityFacts.is_upper.
    destruct (N.leb_spec 97 c1), (N.leb_spec c1 122), (N.leb_spec 65 c1), (N.leb_spec c1 90),
             (N.leb_spec 97 c2), (N.leb_spec c2 122), (N.leb_spec 65 c2), (N.leb_spec c2 90);
      simpl; intros Hp1 Hp2; try discriminate;
      injection Hp1; injection Hp2; intros; lia.
  - intros p. split.
    + intros Hp. destruct (Nat.leb_spec p 26).
      * exists (96 + N.of_nat p)%N.
        rewrite PriorityFacts.calculate_priority_eq.
        unfold PriorityFacts.is_lower, PriorityFacts.is_upper.
        replace ((97 <=? 96 + N.of_nat p) && (96 + N.of_nat p <=? 122))%N with true
          by (symmetry; apply andb_true_iff; split; apply N.leb_le; lia).
        f_equal. lia.
      * exists (38 + N.of_nat p)%N.
        rewrite PriorityFacts.calculate_priority_eq.
        unfold PriorityFacts.is_lower, PriorityFacts.is_upper.
        replace ((97 <=? 38 + N.of_nat p) && (38 + N.of_nat p <=? 122))%N with false
          by (symmetry; apply andb_false_iff; left; apply N.leb_gt; lia).
        replace ((65 <=? 38 + N.of_nat p) && (38 + N.of_nat p <=? 90))%N with true
          by (symmetry; apply andb_true_iff; split; apply N.leb_le; lia).
        f_equal. lia.
    + intros [c Hc]. rewrite PriorityFacts.calculate_priority_eq in Hc.
      unfold PriorityFacts.is_lower, PriorityFacts.is_upper in Hc.
      destruct (N.leb_spec 97 c), (N.leb_spec c 122), (N.leb_spec 65 c), (N.leb_spec c 90);
        simpl in Hc; try discriminate; injection Hc; intros; lia.
  - repeat split.
Qed.

(** C8 (code bug): the line ["A\u{e9}X"] has exactly three characters,
    ['A'] first and ['X'] third, but its [len()] is 4 bytes, so both
    [parse_round] and [parse_constraint] reject it with the length error
    ("inputs must consist of 3 characters"): the separator must be a
    one-byte character. *)
Theorem parse_round_multibyte_separator :
  List.length [65; 233; 88]%N = 3 /\
  Day2.OpponentMove_parse (Some 65%N) = Ok Day2.ORock /\
  Day2.PlayerMove_parse (Some 88%N) = Ok Day2.PRock /\
  Day2.PlayerConstraint_parse (Some 88%N) = Ok Day2.CPlayerLose /\
  str_len [65; 233; 88]%N = 4 /\
  Day2.parse_round [65; 233; 88]%N = Err LengthError /\
  Day2.parse_constraint [65; 233; 88]%N = Err LengthError.
Proof. repeat split. Qed.

(** C3 (code bug): in part 2 the three lines ["aa"], ["bb"], ["cc"] have no
    common character, yet the group is scored [3] (the priority of ['c'])
    instead of failing with the empty-intersection error: once the running
    intersection of [Group::score] becomes empty, the [acc.is_empty()] test
    takes the next rucksack's whole character set again. *)
Theorem part2_disjoint_group_scored :
  (forall x, ~ (In x (str "aa") /\ In x (str "bb") /\ In x (str "cc"))) /\
  Day3.group_eval [str "aa"; str "bb"; str "cc"] = Ok 3 /\
  Day3.part2 (unlines ["aa"; "bb"; "cc"]%string) = Ok 3.
Proof.
  split; [|split; reflexivity].
  intros x [H1 [H2 H3]]. simpl in H1, H2. lia.
Qed.

(** C4 (counterexample): the lines ["ab"], ["ac"], ["ad"] share exactly the
    character ['a'] (priority 1), but part 2 fails: each line is first
    parsed as a part-1 rucksack, and the halves of ["ab"] share nothing. *)
Lemma part2_halves_checked_cex :
  (forall x, In x (str "ab") /\ In x (str "ac") /\ In x (str "ad") <-> x = 97%N) /\
  Day3.calculate_priority 97%N = Ok 1 /\
  Day3.Rucksack_parse (str "ab") = Err NoIntersection /\
  Day3.part2 (unlines ["ab"; "ac"; "ad"]%string) = Err NoIntersection.
Proof.
  split; [|split; [reflexivity|split; reflexivity]].
  intros x. simpl. split; [lia|]. intros ->. tauto.
Qed.

(** C4 (amended): a part-2 group intersects the full character sets of its
    three lines, but every line is first parsed as a part-1 rucksack: if
    some line fails that parse the group fails; if all three lines parse and
    their full character sets have exactly one common character [c], the
    group is scored the priority lookup of [c]. *)
Theorem group_eval_lines_as_rucksacks :
  (forall l1 l2 l3 l e, In l [l1; l2; l3] -> Day3.Rucksack_parse l = Err e ->
     exists e', Day3.group_eval [l1; l2; l3] = Err e') /\
  (forall l1 l2 l3 c,
     (forall l, In l [l1; l2; l3] -> exists r, Day3.Rucksack_parse l = Ok r) ->
     (forall x, In x l1 /\ In x l2 /\ In x l3 <-> x = c) ->
     Day3.group_eval [l1; l2; l3] = Day3.calculate_priority c).
Proof.
  split.
  - intros l1 l2 l3 l e Hin He.
    destruct (GroupScoreFacts.collect_err (map Day3.Rucksack_parse [l1; l2; l3]) e)
      as [e' He'].
    + rewrite <- He. now apply in_map.
    + exists e'. unfold Day3.group_eval, Day3.Group_parse. now rewrite He'.
  - intros l1 l2 l3 c Hok Hinter.
    apply GroupScoreFacts.group_eval_unique; [discriminate| |].
    + now apply Forall_forall.
    + intros x. rewrite <- Hinter, !Forall_cons_iff. split; [tauto|].
      intros H. repeat split; try tauto. constructor.
Qed.

(** C9 (counterexample): the one-line input ["aa"] (a line count that is
    not a multiple of 3) forms a single group of one rucksack, and part 2
    scores it [1] without failing. *)
Lemma part2_short_group_cex :
  lines (str "aa") = [str "aa"] /\
  Day3.chunks 3 [str "aa"] = [[str "aa"]] /\
  Day3.part2 (str "aa") = Ok 1.
Proof. repeat split. Qed.

(** C9 (amended): the lines are consumed in chunks of 3: every group but
    the last has exactly three lines, and a remainder of 1 or 2 lines forms
    a last, shorter group; such a short group is scored like any other
    (with a unique common character [c] of its lines, the priority lookup
    of [c]) rather than rejected. *)
Theorem part2_chunks_of_three :
  (forall (full : list (list rstr)) (last : list rstr),
     Forall (fun g => List.length g = 3%nat) full -> (List.length last < 3)%nat ->
     Day3.chunks 3 (List.concat full ++ last) =
     full ++ match last with [] => [] | _ => [last] end) /\
  (forall (last : list rstr) (c : N),
     (1 <= List.length last <= 2)%nat ->
     Forall (fun l => exists r, Day3.Rucksack_parse l = Ok r) last ->
     (forall x, Forall (In x) last <-> x = c) ->
     Day3.group_eval last = Day3.calculate_priority c).
Proof.
  split.
  - intros full last Hfull Hlast. now apply GroupScoreFacts.chunks_3.
  - intros last c Hlen Hok Hinter.
    apply GroupScoreFacts.group_eval_unique; [|exact Hok|exact Hinter].
    intros ->. simpl in Hlen. lia.
Qed.

(** * Witnesses: the claims' theorems applied to concrete inputs *)

Lemma multi_max_top_k_witness :
  Permutation [1; 5; 3]%N [5; 3; 1]%N /\
  list_sum (multi_max [5; 3; 1]%N 2) = list_sum (multi_max [1; 5; 3]%N 2).
Proof.
  assert (Hp : Permutation [1; 5; 3]%N [5; 3; 1]%N).
  { eapply perm_trans; [apply perm_swap|]. apply perm_skip, perm_swap. }
  split; [exact Hp|].
  apply (proj2 (proj2 (proj2 (multi_max_top_k 2 [1; 5; 3]%N)))). exact Hp.
Defined.

Lemma desired_move_first_match_witness :
  Day2.desired_move Day2.ORock Day2.CPlayerWin = Ok Day2.PPaper /\
  exists r', Day2.evaluate_round Day2.ORock Day2.PRock = Ok r' /\
             Day2.Round_eq_constraint r' Day2.CPlayerWin = false.
Proof.
  split; [reflexivity|].
  destruct (proj1 (desired_move_first_match Day2.ORock Day2.CPlayerWin))
    as (m & r & Hd & He & Heq & Hfirst).
  vm_compute in Hd. injection Hd as <-.
  apply (Hfirst [Day2.PRock] [Day2.PScissors]); [reflexivity|left; reflexivity].
Defined.

Lemma group_stashes_blank_lines_witness :
  parse_calories (str "5") = Ok 5%N /\
  try_fold group_step [] (repeat [] 1 ++ [str "5"]) =
  rmap (app (repeat 0%N 0)) (try_fold group_step [] [str "5"]).
Proof.
  split; [reflexivity|].
  apply (proj2 group_stashes_blank_lines 0 (str "5") 5%N []). reflexivity.
Defined.

Lemma move_cmp_total_antisymmetric_witness :
  exists c, Day2.partial_cmp_op Day2.ORock Day2.PScissors = Some c /\
    Day2.partial_cmp_po Day2.PScissors Day2.ORock = Some (CompOpp c) /\
    Day2.partial_cmp_po (MoveFacts.player_of Day2.ORock) (MoveFacts.opponent_of Day2.PScissors)
      = Some c /\
    Day2.partial_cmp_op (MoveFacts.opponent_of Day2.PScissors) (MoveFacts.player_of Day2.ORock)
      = Some (CompOpp c) /\
    (c = Eq <-> MoveFacts.player_of Day2.ORock = Day2.PScissors).
Proof. exact (move_cmp_total_antisymmetric Day2.ORock Day2.PScissors). Defined.

Lemma priority_bijection_witness :
  PriorityFacts.alphabetic 65%N = true /\ (exists p, Day3.calculate_priority 65%N = Ok p) /\
  (1 <= 30 <= 52)%nat /\ (exists c, Day3.calculate_priority c = Ok 30).
Proof.
  split; [reflexivity|]. split.
  - apply (proj1 (proj1 priority_bijection 65%N)). reflexivity.
  - split; [lia|]. apply (proj1 (proj1 (proj2 (proj2 (proj2 priority_bijection))) 30)). lia.
Defined.

Lemma group_eval_lines_as_rucksacks_witness :
  Day3.Rucksack_parse (str "ab") = Err NoIntersection /\
  (exists e', Day3.group_eval [str "ab"; str "ac"; str "ad"] = Err e') /\
  Day3.group_eval [str "aa"; str "xaxy"; str "aa"] = Day3.calculate_priority 97%N.
Proof.
  split; [reflexivity|]. split.
  - apply (proj1 group_eval_lines_as_rucksacks _ _ _ (str "ab") NoIntersection);
      [left; reflexivity|reflexivity].
  - apply (proj2 group_eval_lines_as_rucksacks).
    + intros l Hl. simpl in Hl. destruct Hl as [<-|[<-|[<-|[]]]]; eexists; reflexivity.
    + intros x. simpl. split; [lia|]. intros ->. tauto.
Defined.

Lemma part2_chunks_of_three_witness :
  Day3.chunks 3 (List.concat [[str "x"; str "y"; str "z"]] ++ [str "w"]) =
    [[str "x"; str "y"; str "z"]; [str "w"]] /\
  Day3.group_eval [str "aa"] = Day3.calculate_priority 97%N.
Proof.
  split.
  - apply (proj1 part2_chunks_of_three); [repeat constructor|simpl; lia].
  - apply (proj2 part2_chunks_of_three); [simpl; lia| |].
    + constructor; [eexists; reflexivity|constructor].
    + intros x. rewrite Forall_cons_iff. simpl. split.
      * intros [H _]. lia.
      * intros ->. split; [tauto|constructor].
Defined.

End Claims.

(** * Further properties of day 1 *)
Module Day1Extras.
Import Day1 MultiMaxFacts.
Local Open Scope N_scope.

(** A blank line (the [food.is_empty()] test of [group_stashes]). *)
Definition is_blank (l : rstr) : bool := match l with [] => true | _ => false end.

(** The calories a line adds: [0] for a blank line or a line that does not parse. *)
Definition line_value (l : rstr) : N :=
  match l with [] => 0 | _ => match parse_calories l with Ok v => v | Err _ => 0 end end.

(** The decimal rendering of a natural number, as [format!("{}", n)]
    writes it: most significant digit first, no leading zeros. *)
Fixpoint decimal_digits_rev (fuel : nat) (n : N) : list N :=
  match fuel with
  | O => []
  | S fuel' => (48 + n mod 10) :: (if n <? 10 then [] else decimal_digits_rev fuel' (n / 10))
  end.

Definition to_decimal (n : N) : rstr := rev (decimal_digits_rev (S (N.to_nat (N.size n))) n).

Lemma add_to_last_length (acc : list N) (v : N) (r : list N) :
  acc <> [] -> add_to_last acc v = Ok r -> List.length r = List.length acc.
Proof.
  revert r; induction acc as [|x acc IH]; intros r Hne; [contradiction|].
  destruct acc as [|y acc].
  - simpl. destruct (add_usize x v); simpl; intros H; inversion H; reflexivity.
  - change (add_to_last (x :: y :: acc) v) with (rmap (cons x) (add_to_last (y :: acc) v)).
    destruct (add_to_last (y :: acc) v) as [r'|] eqn:E; simpl; intros H; inversion H; subst.
    simpl. f_equal. apply IH; [discriminate|reflexivity].
Qed.

Lemma add_to_last_sum (acc : list N) (v : N) (r : list N) :
  add_to_last acc v = Ok r -> list_sum r = list_sum acc + v.
Proof.
  revert r; induction acc as [|x acc IH]; intros r.
  - simpl. intros [= <-]. simpl. lia.
  - destruct acc as [|y acc].
    + simpl. unfold add_usize. destruct (_ <=? usize_max); simpl; intros H; inversion H.
      simpl. lia.
    + change (add_to_last (x :: y :: acc) v) with (rmap (cons x) (add_to_last (y :: acc) v)).
      destruct (add_to_last (y :: acc) v) as [r'|] eqn:E; simpl; intros H; inversion H; subst.
      simpl. rewrite (IH r' eq_refl). simpl. lia.
Qed.

Lemma group_step_length (acc : list N) (l : rstr) (r : list N) :
  acc <> [] -> group_step acc l = Ok r ->
  List.length r = (List.length acc + if is_blank l then 1 else 0)%nat.
Proof.
  intros Hne. unfold group_step. destruct l as [|c l].
  - intros [= <-]. rewrite length_app. reflexivity.
  - destruct (parse_calories (c :: l)); simpl; [|discriminate].
    intros H. rewrite (add_to_last_length acc _ r Hne H). simpl. lia.
Qed.

Lemma group_step_sum (acc : list N) (l : rstr) (r : list N) :
  group_step acc l = Ok r -> list_sum r = list_sum acc + line_value l.
Proof.
  unfold group_step, line_value. destruct l as [|c l].
  - intros [= <-]. unfold list_sum. rewrite fold_right_app. simpl.
    clear. induction acc as [|x acc IH]; simpl; lia.
  - destruct (parse_calories (c :: l)); simpl; [|discriminate].
    apply add_to_last_sum.
Qed.

Lemma try_fold_group_length (ls : list rstr) (acc r : list N) :
  acc <> [] -> try_fold group_step acc ls = Ok r ->
  List.length r = (List.length acc + List.length (filter is_blank ls))%nat.
Proof.
  revert acc; induction ls as [|l ls IH]; intros acc Hne; simpl.
  - intros [= <-]. lia.
  - destruct (group_step acc l) as [acc'|] eqn:E; [|discriminate]. intros H.
    rewrite (IH acc' (GroupFacts.group_step_nonempty _ _ _ E) H).
    rewrite (group_step_length acc l acc' Hne E).
    destruct (is_blank l); simpl; lia.
Qed.

Lemma try_fold_group_sum (ls : list rstr) (acc r : list N) :
  try_fold group_step acc ls = Ok r ->
  list_sum r = list_sum acc + list_sum (map line_value ls).
Proof.
  revert acc; induction ls as [|l ls IH]; intros acc; simpl.
  - intros [= <-]. lia.
  - destruct (group_step acc l) as [acc'|] eqn:E; [|discriminate]. intros H.
    rewrite (IH acc' H), (group_step_sum acc l acc' E). lia.
Qed.

Lemma try_fold_group_err (ls : list rstr) (acc : list N) (l : rstr) (e : Report) :
  In l ls -> l <> [] -> parse_calories l = Err e ->
  exists e', try_fold group_step acc ls = Err e'.
Proof.
  revert acc; induction ls as [|x ls IH]; intros acc Hin Hne He; [destruct Hin|].
  simpl. destruct Hin as [->|Hin].
  - unfold group_step at 1. destruct l as [|c l]; [contradiction|].
    rewrite He. simpl. now exists e.
  - destruct (group_step acc x); [now apply IH|]. eexists; reflexivity.
Qed.

Lemma fold_max_spec (l : list N) (acc : N) :
  acc <= fold_left N.max l acc /\ Forall (fun x => x <= fold_left N.max l acc) l /\
  (fold_left N.max l acc = acc \/ In (fold_left N.max l acc) l).
Proof.
  revert acc; induction l as [|x l IH]; intros acc; simpl.
  - split; [lia|]. split; [constructor|]. now left.
  - destruct (IH (N.max acc x)) as [H1 [H2 H3]]. split; [lia|]. split.
    + constructor; [lia|exact H2].
    + destruct H3 as [H3|H3]; [|right; now right].
      rewrite H3. destruct (N.max_spec acc x) as [[_ ->]|[_ ->]]; [right; now left|now left].
Qed.

Lemma sum_usize_ok (l : list N) (acc s : N) :
  try_fold add_usize acc l = Ok s -> s = acc + list_sum l.
Proof.
  revert acc; induction l as [|x l IH]; intros acc; simpl.
  - intros [= <-]. lia.
  - unfold add_usize at 1. destruct (acc + x <=? usize_max); [|discriminate].
    intros H. rewrite (IH _ H). lia.
Qed.

Lemma digits_value_snoc (acc : N) (s : rstr) (d : N) :
  digits_value acc (s ++ [d]) =
  match digits_value acc s with
  | Some v => if is_digit d then Some (v * 10 + (d - 48)) else None
  | None => None
  end.
Proof.
  revert acc; induction s as [|c s IH]; intros acc; simpl; [now destruct (is_digit d)|].
  destruct (is_digit c); [apply IH|reflexivity].
Qed.

Lemma decimal_digits_value (f : nat) (n : N) :
  (1 <= f)%nat -> n < 10 ^ N.of_nat f ->
  digits_value 0 (rev (decimal_digits_rev f n)) = Some n /\
  Forall (fun d => is_digit d = true) (decimal_digits_rev f n) /\
  decimal_digits_rev f n <> [].
Proof.
  revert n; induction f as [|f IH]; intros n Hf Hn; [lia|].
  assert (Hmod : n mod 10 < 10) by (apply N.mod_lt; lia).
  assert (Hd : is_digit (48 + n mod 10) = true).
  { unfold is_digit. apply andb_true_iff.
    generalize dependent (n mod 10); intros; split; apply N.leb_le; lia. }
  assert (Hm : 48 + n mod 10 - 48 = n mod 10) by (generalize (n mod 10); intros; lia).
  change (decimal_digits_rev (S f) n) with
    (48 + n mod 10 :: if n <? 10 then [] else decimal_digits_rev f (n / 10)).
  remember (48 + n mod 10) as d eqn:Ed.
  destruct (N.ltb_spec n 10) as [Hlt|Hge].
  - cbn [rev app digits_value]. rewrite Hd, Hm, N.mod_small by exact Hlt. split; [f_equal; lia|].
    split; [constructor; [exact Hd|constructor]|discriminate].
  - assert (Hf' : (1 <= f)%nat).
    { destruct f; [|lia]. simpl in Hn. lia. }
    assert (Hn' : n / 10 < 10 ^ N.of_nat f).
    { apply N.Div0.div_lt_upper_bound.
      rewrite Nat2N.inj_succ, N.pow_succ_r' in Hn. exact Hn. }
    destruct (IH (n / 10) Hf' Hn') as [Hv [Hall Hne]].
    cbn [rev]. rewrite digits_value_snoc, Hv, Hd, Hm.
    split; [f_equal; rewrite (N.div_mod n 10) at 3 by lia; lia|].
    split; [constructor; [exact Hd|exact Hall]|discriminate].
Qed.

Lemma add_to_last_ok (acc : list N) (v : N) :
  list_sum acc + v <= usize_max -> exists r, add_to_last acc v = Ok r.
Proof.
  induction acc as [|x acc IH]; intros Hle; [eexists; reflexivity|].
  destruct acc as [|y acc].
  - simpl in Hle. simpl. unfold add_usize.
    destruct (N.leb_spec (x + v) usize_max); [eexists; reflexivity|lia].
  - change (add_to_last (x :: y :: acc) v) with (rmap (cons x) (add_to_last (y :: acc) v)).
    destruct IH as [r' Hr']; [simpl in *; lia|]. rewrite Hr'. eexists; reflexivity.
Qed.

Lemma list_sum_snoc0 (acc : list N) : list_sum (acc ++ [0]) = list_sum acc.
Proof. unfold list_sum. rewrite fold_right_app. simpl. induction acc; simpl; lia. Qed.

Lemma try_fold_group_ok (ls : list rstr) (acc : list N) :
  (forall l, In l ls -> l <> [] -> exists v, parse_calories l = Ok v) ->
  list_sum acc + list_sum (map line_value ls) <= usize_max ->
  exists r, try_fold group_step acc ls = Ok r.
Proof.
  revert acc; induction ls as [|l ls IH]; intros acc Hp Hle; [eexists; reflexivity|].
  simpl. destruct l as [|c l].
  - simpl in Hle. apply IH; [intros l' Hl'; apply Hp; now right|].
    rewrite list_sum_snoc0. lia.
  - destruct (Hp (c :: l) (or_introl eq_refl) ltac:(discriminate)) as [v Hv].
    unfold group_step at 1. rewrite Hv. simpl.
    assert (Hlv : line_value (c :: l) = v) by (unfold line_value; now rewrite Hv).
    unfold list_sum in Hle; cbn [map fold_right] in Hle; fold (list_sum (map line_value ls)) in Hle.
    rewrite Hlv in Hle. fold (list_sum acc) in Hle.
    destruct (add_to_last_ok acc v) as [r' Hr']; [lia|]. rewrite Hr'.
    apply IH; [intros l' Hl'; apply Hp; now right|].
    rewrite (add_to_last_sum acc v r' Hr'). lia.
Qed.

Lemma In_le_list_sum (x : N) (l : list N) : In x l -> x <= list_sum l.
Proof. induction l as [|y l IH]; simpl; [tauto|]. intros [->|H]; [lia|]. specialize (IH H); lia. Qed.

Lemma list_sum_le_bound (m : N) (l : list N) :
  Forall (fun x => x <= m) l -> list_sum l <= N.of_nat (List.length l) * m.
Proof.
  induction l as [|x l IH]; [simpl; lia|]. intros H; inversion H; subst.
  specialize (IH H3). cbn [List.length]. rewrite Nat2N.inj_succ.
  unfold list_sum in *; cbn [fold_right]. lia.
Qed.

Lemma multi_max_skipn (K : nat) (S : list N) :
  multi_max S K = skipn (List.length S - K) (sort S).
Proof.
  destruct (multi_max_inv K S) as [A [HA Hl]].
  assert (Hs : List.length (sort S) = List.length S) by apply (Permutation_length (sort_perm S)).
  rewrite HA in Hs |- *. rewrite length_app in Hs.
  replace (List.length S - K)%nat with (List.length A) by lia.
  rewrite skipn_app, skipn_all, Nat.sub_diag. reflexivity.
Qed.

Lemma multi_max_incl (K : nat) (S : list N) (x : N) : In x (multi_max S K) -> In x S.
Proof.
  destruct (multi_max_inv K S) as [A [HA _]]. intros H.
  apply (Permutation_in _ (sort_perm S)). rewrite HA. apply in_or_app. now right.
Qed.

Lemma multi_max_has_max (K : nat) (S : list N) (m : N) :
  (1 <= K)%nat -> In m S -> Forall (fun x => x <= m) S -> exists y, In y (multi_max S K) /\ m <= y.
Proof.
  intros HK Hm Hall. destruct (multi_max_inv K S) as [A [HA Hl]].
  assert (Hm' : In m (A ++ multi_max S K)).
  { rewrite <- HA. apply (Permutation_in _ (Permutation_sym (sort_perm S))), Hm. }
  apply in_app_or in Hm'. destruct Hm' as [HmA|HmM]; [|exists m; split; [exact HmM|lia]].
  destruct (multi_max S K) as [|y M] eqn:E.
  - destruct S; [destruct Hm|]. simpl in Hl. lia.
  - exists y. split; [now left|].
    pose proof (sorted_app_le A (y :: M)) as Hle. rewrite <- HA in Hle.
    specialize (Hle (sort_sorted S)). rewrite Forall_forall in Hle.
    specialize (Hle m HmA). inversion Hle; assumption.
Qed.

Lemma digit_not_plus (x : N) : is_digit x = true -> forall A (f g : A),
  match x with 43 => f | _ => g end = g.
Proof.
  unfold is_digit. intros H. apply andb_true_iff in H. destruct H as [H1 H2].
  apply N.leb_le in H1, H2. intros A f g.
  assert (x = 48 \/ x = 49 \/ x = 50 \/ x = 51 \/ x = 52 \/ x = 53 \/ x = 54 \/ x = 55 \/ x = 56 \/ x = 57) as Hx by lia.
  repeat destruct Hx as [->|Hx]; try reflexivity. subst; reflexivity.
Qed.

Lemma to_decimal_spec (n : N) :
  digits_value 0 (to_decimal n) = Some n /\
  exists x rest, to_decimal n = x :: rest /\ is_digit x = true.
Proof.
  assert (Hn : n < 10 ^ N.of_nat (S (N.to_nat (N.size n)))).
  { rewrite Nat2N.inj_succ, N2Nat.id.
    apply N.lt_le_trans with (2 ^ N.size n); [apply N.size_gt|].
    apply N.le_trans with (10 ^ N.size n); [apply N.pow_le_mono_l; lia|].
    apply N.pow_le_mono_r; lia. }
  destruct (decimal_digits_value (S (N.to_nat (N.size n))) n ltac:(lia) Hn) as [Hv [Hall Hne]].
  unfold to_decimal. split; [exact Hv|].
  destruct (rev (decimal_digits_rev (S (N.to_nat (N.size n))) n)) as [|x rest] eqn:E.
  - apply (f_equal (@rev N)) in E. rewrite rev_involutive in E. contradiction.
  - exists x, rest. split; [reflexivity|].
    rewrite Forall_forall in Hall. apply Hall. apply in_rev. rewrite E. now left.
Qed.

Lemma list_sum_perm (l l' : list N) : Permutation l l' -> list_sum l = list_sum l'.
Proof. induction 1; unfold list_sum in *; simpl; lia. Qed.

Lemma list_sum_skipn_le (k : nat) (l : list N) : list_sum (skipn k l) <= list_sum l.
Proof.
  revert l; induction k as [|k IH]; intros l; [simpl; lia|].
  destruct l as [|x l]; [simpl; lia|]. simpl. specialize (IH l). unfold list_sum in *; simpl; lia.
Qed.

Lemma sum_usize_fits (l : list N) (acc : N) :
  acc + list_sum l <= usize_max -> try_fold add_usize acc l = Ok (acc + list_sum l).
Proof.
  revert acc; induction l as [|x l IH]; intros acc Hle; simpl; [f_equal; lia|].
  unfold add_usize at 1. unfold list_sum in *; simpl in Hle |- *.
  destruct (N.leb_spec (acc + x) usize_max); [|lia].
  rewrite IH by lia. f_equal; lia.
Qed.

End Day1Extras.


(** * Further properties of day 2 *)
Module Day2Extras.
Import Day2.

Lemma collect_map_ok {A B} (f : A -> result B) (l : list A) (xs : list B) :
  collect (map f l) = Ok xs -> Forall2 (fun a x => f a = Ok x) l xs.
Proof.
  revert xs; induction l as [|a l IH]; intros xs; simpl.
  - intros [= <-]. constructor.
  - destruct (f a) as [x|e] eqn:E; simpl; [|discriminate].
    destruct (collect (map f l)) as [xs'|]; simpl; [|discriminate].
    intros [= <-]. constructor; [exact E|now apply IH].
Qed.

Lemma collect_map_ok_iff {A B} (f : A -> result B) (l : list A) :
  (exists xs, collect (map f l) = Ok xs) <-> Forall (fun a => exists x, f a = Ok x) l.
Proof.
  induction l as [|a l IH]; simpl.
  - split; [constructor|]. intros _. now exists [].
  - split.
    + destruct (f a) as [x|e] eqn:E; simpl; [|intros [? H]; discriminate].
      destruct (collect (map f l)) as [xs'|] eqn:Ec; simpl; [|intros [? H]; discriminate].
      intros _. constructor; [now exists x|]. apply IH. now exists xs'.
    + intros H. inversion H as [|? ? [x Hx] Hl]; subst. rewrite Hx.
      destruct (proj2 IH Hl) as [xs' Hxs']. rewrite Hxs'. now eexists.
Qed.

(** Two parsers that succeed on the same inputs and fail with the same errors. *)
Definition agree {A B} (x : result A) (y : result B) : Prop :=
  match x, y with
  | Ok _, Ok _ => True
  | Err e, Err e' => e = e'
  | _, _ => False
  end.

Lemma collect_map_agree {A B C} (f : A -> result B) (g : A -> result C) (l : list A) :
  (forall a, agree (f a) (g a)) ->
  match collect (map f l), collect (map g l) with
  | Ok xs, Ok ys => List.length xs = List.length ys
  | Err e, Err e' => e = e'
  | _, _ => False
  end.
Proof.
  intros Hfg. induction l as [|a l IH]; simpl; [reflexivity|].
  specialize (Hfg a). unfold agree in Hfg.
  destruct (f a), (g a); try contradiction; simpl; [|exact Hfg].
  destruct (collect (map f l)), (collect (map g l)); simpl in *; auto.
Qed.

Lemma PlayerMove_parse_agree (c : option N) : agree (PlayerMove_parse c) (PlayerConstraint_parse c).
Proof.
  unfold agree. destruct c as [n|]; [|reflexivity].
  destruct n as [|p]; [reflexivity|]. repeat (destruct p as [p|p|]; try exact I; try reflexivity).
Qed.

Lemma parsers_agree (s : rstr) : agree (parse_round s) (parse_constraint s).
Proof.
  unfold parse_round, parse_constraint. destruct (negb (Nat.eqb (str_len s) 3)); [reflexivity|].
  destruct (next s) as [c1 rest]. destruct (OpponentMove_parse c1); simpl; [|reflexivity].
  destruct (next rest) as [c2 rest']. destruct (next rest') as [c3 rest''].
  pose proof (PlayerMove_parse_agree c3) as H. unfold agree in *.
  destruct (PlayerMove_parse c3), (PlayerConstraint_parse c3); simpl; auto.
Qed.

Lemma OpponentMove_parse_not_end (a : N) : OpponentMove_parse (Some a) <> Err UnexpectedEnd.
Proof. intros H. ParseFacts.decode_char H. Qed.

Lemma PlayerMove_parse_not_end (a : N) : PlayerMove_parse (Some a) <> Err UnexpectedEnd.
Proof. intros H. ParseFacts.decode_char H. Qed.

Lemma round_score_range (o : OpponentMove) (m : PlayerMove) :
  exists k, round_score o m = Ok k /\ 1 <= k <= 9.
Proof. destruct o, m; eexists; (split; [reflexivity|simpl; lia]). Qed.

Lemma collect_round_scores (rs : list (OpponentMove * PlayerMove)) :
  exists ks, collect (map (fun '(o, p) => round_score o p) rs) = Ok ks /\
             List.length ks = List.length rs /\ Forall (fun k => 1 <= k <= 9) ks.
Proof.
  induction rs as [|[o p] rs [ks [Hks [Hl Hall]]]]; [exists []; repeat split; constructor|].
  destruct (round_score_range o p) as [k [Hk Hr]].
  exists (k :: ks). simpl. rewrite Hk, Hks. simpl. repeat split; [now rewrite Hl|now constructor].
Qed.

Lemma scores_sum_bounds (ks : list nat) :
  Forall (fun k => 1 <= k <= 9) ks ->
  (N.of_nat (List.length ks) <= MultiMaxFacts.list_sum (map N.of_nat ks) <= 9 * N.of_nat (List.length ks))%N.
Proof.
  induction 1 as [|k ks Hk _ IH]; [simpl; lia|].
  cbn [List.length map]. rewrite Nat2N.inj_succ. unfold MultiMaxFacts.list_sum in *. cbn [fold_right]. lia.
Qed.

Lemma score_rounds_bounds (rs : list (OpponentMove * PlayerMove)) (s : N) :
  score_rounds rs = Ok s ->
  (N.of_nat (List.length rs) <= s <= 9 * N.of_nat (List.length rs))%N.
Proof.
  unfold score_rounds. destruct (collect_round_scores rs) as [ks [Hks [Hl Hall]]].
  rewrite Hks. cbn [bind]. unfold Day1.sum_usize. intros H. apply Day1Extras.sum_usize_ok in H.
  rewrite <- Hl. pose proof (scores_sum_bounds ks Hall). lia.
Qed.

Lemma score_rounds_ok (rs : list (OpponentMove * PlayerMove)) :
  (9 * N.of_nat (List.length rs) <= Day1.usize_max)%N -> exists s, score_rounds rs = Ok s.
Proof.
  intros Hle. unfold score_rounds. destruct (collect_round_scores rs) as [ks [Hks [Hl Hall]]].
  rewrite Hks. cbn [bind]. unfold Day1.sum_usize. rewrite Day1Extras.sum_usize_fits; [now eexists|].
  pose proof (scores_sum_bounds ks Hall). rewrite Hl in H. lia.
Qed.

Lemma reconstruct_rounds_spec (rs : list (OpponentMove * PlayerConstraint)) :
  exists out, reconstruct_rounds rs = Ok out /\ map fst out = map fst rs /\
    Forall2 (fun (oc : OpponentMove * PlayerConstraint) (om : OpponentMove * PlayerMove) =>
               exists r, evaluate_round (fst om) (snd om) = Ok r /\
                         Round_eq_constraint r (snd oc) = true) rs out.
Proof.
  unfold reconstruct_rounds.
  induction rs as [|[o c] rs [out [Hout [Hf H2]]]]; [exists []; repeat split; constructor|].
  assert (Hm : exists m r, desired_move o c = Ok m /\ evaluate_round o m = Ok r /\
                           Round_eq_constraint r c = true)
    by (destruct o, c; do 2 eexists; repeat split).
  destruct Hm as [m [r [Hd [He Hr]]]].
  exists ((o, m) :: out). simpl. rewrite Hd, Hout. simpl.
  split; [reflexivity|]. split; [now rewrite Hf|]. constructor; [|exact H2].
  exists r. simpl. now split.
Qed.

(** Moves numbered in declaration order: Rock 0, Paper 1, Scissors 2. *)
Definition opponent_index (o : OpponentMove) : nat :=
  match o with ORock => 0 | OPaper => 1 | OScissors => 2 end.

Definition player_index (m : PlayerMove) : nat :=
  match m with PRock => 0 | PPaper => 1 | PScissors => 2 end.

(** How far the player's move is ahead of the opponent's, modulo 3, for
    each constraint: 0 for a draw, 1 for a win, 2 for a loss. *)
Definition constraint_shift (c : PlayerConstraint) : nat :=
  match c with CDraw => 0 | CPlayerWin => 1 | CPlayerLose => 2 end.

End Day2Extras.

(** * Further properties of day 3 *)
Module Day3Extras.
Import Day3 GroupScoreFacts.

Lemma str_len_app (a b : rstr) : str_len (a ++ b) = str_len a + str_len b.
Proof. induction a as [|c a IH]; simpl; [reflexivity|]. unfold str_len in *; simpl. rewrite IH. lia. Qed.

Lemma str_len_ascii (s : rstr) : Forall (fun c => (c < 128)%N) s -> str_len s = List.length s.
Proof.
  induction 1 as [|c s Hc _ IH]; [reflexivity|].
  cbn [List.length]. unfold str_len in *; cbn [fold_right].
  rewrite IH, (proj2 (ParseFacts.utf8_width_one c) Hc). reflexivity.
Qed.

Lemma split_at_ok_iff (s a b : rstr) (k : nat) :
  split_at s k = Ok (a, b) <-> a ++ b = s /\ str_len a = k.
Proof.
  split.
  - revert k a b; induction s as [|c s IH]; intros k a b.
    + destruct k; cbn [split_at]; [intros [= <- <-]; now split|discriminate].
    + destruct k as [|k']; cbn [split_at]; [intros [= <- <-]; now split|].
      destruct (Nat.ltb_spec (S k') (utf8_width c)); [discriminate|].
      destruct (split_at s (S k' - utf8_width c)) as [[a' b']|] eqn:E; cbn [rmap]; [|discriminate].
      intros [= <- <-]. destruct (IH _ _ _ E) as [<- Hl].
      split; [reflexivity|]. unfold str_len in *; simpl. lia.
  - intros [<- Hl]. revert k Hl; induction a as [|c a IH]; intros k Hl.
    + simpl in Hl. subst k. destruct b; reflexivity.
    + pose proof (ParseFacts.utf8_width_pos c).
      unfold str_len in Hl; simpl in Hl; fold (str_len a) in Hl.
      destruct k as [|k']; [lia|]. cbn [app split_at].
      destruct (Nat.ltb_spec (S k') (utf8_width c)); [lia|].
      rewrite (IH (S k' - utf8_width c)) by lia. reflexivity.
Qed.

Lemma split_at_err (s : rstr) (k : nat) (e : Report) : split_at s k = Err e -> e = Panic.
Proof.
  revert k; induction s as [|c s IH]; intros k H; destruct k as [|k']; cbn [split_at] in H;
    try discriminate H.
  - congruence.
  - destruct (Nat.ltb (S k') (utf8_width c)); [congruence|].
    destruct (split_at s (S k' - utf8_width c)) eqn:E; cbn [rmap] in H; [discriminate H|].
    injection H as <-. exact (IH _ E).
Qed.

Lemma split_at_ascii (s : rstr) (k : nat) :
  Forall (fun c => (c < 128)%N) s -> k <= List.length s ->
  split_at s k = Ok (firstn k s, skipn k s).
Proof.
  intros Ha Hk. apply split_at_ok_iff. split; [apply firstn_skipn|].
  rewrite str_len_ascii, length_firstn; [lia|].
  rewrite <- (firstn_skipn k s) in Ha. apply Forall_app in Ha. exact (proj1 Ha).
Qed.

Lemma hs_intersection_spec (x y : rstr) :
  NoDup (hs_intersection (hs_of_chars x) (hs_of_chars y)) /\
  (forall z, In z (hs_intersection (hs_of_chars x) (hs_of_chars y)) <-> In z x /\ In z y).
Proof.
  destruct (hs_of_chars_spec x) as [Hx Hxs], (hs_of_chars_spec y) as [_ Hys].
  unfold hs_intersection. split; [now apply NoDup_filter|].
  intros z. rewrite filter_In, mem_In, Hxs, Hys. reflexivity.
Qed.

Lemma item_type_spec (x y : rstr) (c : N) :
  (calculate_item_type (Compartment_parse x) (Compartment_parse y) = Ok c <->
     forall z, In z x /\ In z y <-> z = c) /\
  (calculate_item_type (Compartment_parse x) (Compartment_parse y) = Err NoIntersection <->
     forall z, ~ (In z x /\ In z y)) /\
  (calculate_item_type (Compartment_parse x) (Compartment_parse y) = Err MoreThanOneIntersection <->
     exists z1 z2, z1 <> z2 /\ In z1 x /\ In z1 y /\ In z2 x /\ In z2 y).
Proof.
  unfold calculate_item_type, Compartment_parse.
  destruct (hs_intersection_spec x y) as [Hnd Hin].
  destruct (hs_intersection (hs_of_chars x) (hs_of_chars y)) as [|a [|b l]] eqn:E.
  - split; [split; [discriminate|intros H; destruct (proj2 (Hin c) (proj2 (H c) eq_refl))]|].
    split; [split; [intros _ z Hz; now apply Hin in Hz|reflexivity]|].
    split; [discriminate|]. intros [z1 [_ [_ [H1 [H2 _]]]]]. destruct (proj2 (Hin z1) (conj H1 H2)).
  - split; [split|split; split].
    + intros [= <-] z. rewrite <- Hin. simpl. intuition.
    + intros H. f_equal. apply H, Hin. now left.
    + discriminate.
    + intros H. exfalso. apply (H a), Hin. now left.
    + discriminate.
    + intros [z1 [z2 [Hne [H1 [H2 [H3 H4]]]]]].
      assert (In z1 [a]) by (apply Hin; auto). assert (In z2 [a]) by (apply Hin; auto).
      simpl in *. intuition congruence.
  - inversion Hnd as [|? ? Hn _]; subst.
    split; [split|split; split].
    + discriminate.
    + intros H. assert (a = c) by (apply H, Hin; now left).
      assert (b = c) by (apply H, Hin; right; now left). subst. exfalso. apply Hn. now left.
    + discriminate.
    + intros H. exfalso. apply (H a), Hin. now left.
    + intros _. exists a, b. split; [intros ->; apply Hn; now left|].
      destruct (proj1 (Hin a) ltac:(now left)), (proj1 (Hin b) ltac:(right; now left)). auto.
    + reflexivity.
Qed.

Lemma priority_range (c : N) (p : nat) : calculate_priority c = Ok p -> 1 <= p <= 52.
Proof.
  rewrite PriorityFacts.calculate_priority_eq. unfold PriorityFacts.is_lower, PriorityFacts.is_upper.
  destruct (N.leb_spec 97 c), (N.leb_spec c 122), (N.leb_spec 65 c), (N.leb_spec c 90);
    simpl; try discriminate; intros [= <-]; lia.
Qed.

Lemma Rucksack_parse_priority (l : rstr) (r : Rucksack) :
  Rucksack_parse l = Ok r -> 1 <= priority r <= 52.
Proof.
  unfold Rucksack_parse.
  destruct (split_at l _) as [[first second]|]; simpl; [|discriminate].
  destruct (calculate_item_type _ _); simpl; [|discriminate].
  destruct (calculate_priority _) eqn:E; simpl; [|discriminate].
  intros [= <-]. simpl. exact (priority_range _ _ E).
Qed.

Lemma Group_score_range (g : Group) (p : nat) : Group_score g = Ok p -> 1 <= p <= 52.
Proof.
  unfold Group_score. destruct (fold_left group_fold_step (rucksacks g) []) as [|t [|u l]];
    [discriminate| |discriminate].
  apply priority_range.
Qed.

Lemma sum_nat_bounds (l : list nat) :
  Forall (fun k => 1 <= k <= 52) l -> List.length l <= sum_nat l <= 52 * List.length l.
Proof. induction 1 as [|k l Hk _ IH]; simpl; [lia|]. unfold sum_nat in *; simpl. lia. Qed.

Lemma chunks_fuel_length {A} (fuel : nat) (l : list A) :
  List.length l <= fuel -> List.length (chunks_fuel fuel 3 l) = (List.length l + 2) / 3.
Proof.
  revert l; induction fuel as [|fuel IH]; intros l Hl.
  - destruct l; [reflexivity|simpl in Hl; lia].
  - destruct l as [|x l']; [reflexivity|]. cbn [chunks_fuel List.length].
    rewrite IH by (rewrite length_skipn; simpl in *; lia).
    rewrite length_skipn. cbn [List.length].
    assert (H : forall n, S ((S n - 3 + 2) / 3) = (S n + 2) / 3).
    { intros n. destruct n as [|[|[|n]]]; [reflexivity|reflexivity|reflexivity|].
      replace (S (S (S (S n))) - 3 + 2) with (n + 1 * 3) by lia.
      replace (S (S (S (S n))) + 2) with (n + 3 + 1 * 3) by lia.
      rewrite !Nat.div_add by lia. replace (n + 3) with (n + 1 * 3) by lia.
      rewrite Nat.div_add by lia. lia. }
    apply H.
Qed.

Lemma chunks_fuel_concat {A} (fuel : nat) (l : list A) :
  List.length l <= fuel -> List.concat (chunks_fuel fuel 3 l) = l.
Proof.
  revert l; induction fuel as [|fuel IH]; intros l Hl.
  - destruct l; [reflexivity|simpl in Hl; lia].
  - destruct l as [|x l']; [reflexivity|]. cbn [chunks_fuel List.concat].
    rewrite IH by (rewrite length_skipn; simpl in *; lia). apply firstn_skipn.
Qed.

Lemma collect_app {A} (l1 l2 : list (result A)) :
  collect (l1 ++ l2) = bind (collect l1) (fun xs => rmap (app xs) (collect l2)).
Proof.
  induction l1 as [|[a|e] l1 IH]; simpl.
  - destruct (collect l2); reflexivity.
  - rewrite IH. destruct (collect l1); simpl; [|reflexivity]. destruct (collect l2); reflexivity.
  - reflexivity.
Qed.

Lemma collect_concat_err {A B} (f : A -> result B) (G : list (list A)) (e : Report) :
  collect (map f (List.concat G)) = Err e ->
  collect (map (fun g => collect (map f g)) G) = Err e.
Proof.
  induction G as [|g G IH]; simpl; [discriminate|].
  rewrite map_app, collect_app. destruct (collect (map f g)); simpl; [|intros H; injection H as ->; reflexivity].
  destruct (collect (map f (List.concat G))) eqn:E; simpl; [discriminate|].
  intros [= <-]. rewrite (IH eq_refl). reflexivity.
Qed.

Lemma collect_map_rmap_err {A B C} (F : A -> result B) (h : B -> C) (G : list A) (e : Report) :
  collect (map F G) = Err e -> collect (map (fun g => rmap h (F g)) G) = Err e.
Proof.
  induction G as [|g G IH]; simpl; [discriminate|].
  destruct (F g); simpl; [|intros H; injection H as ->; reflexivity].
  destruct (collect (map F G)); simpl; [discriminate|]. intros H. now rewrite (IH H).
Qed.

Lemma Forall2_Forall_r {A B} (R : A -> B -> Prop) (P : B -> Prop) (l : list A) (l' : list B) :
  (forall a b, R a b -> P b) -> Forall2 R l l' -> Forall P l'.
Proof. intros HR. induction 1; constructor; eauto. Qed.

End Day3Extras.

(** * Further properties of the solutions *)
Module Extras.

(** ** Day 1 *)
Section Day1Props.
Import Day1 MultiMaxFacts Day1Extras.
Local Open Scope N_scope.

(** [group_stashes] makes one group for the first line and one more for
    every later blank line: on success the number of groups is [0] for
    no line, and otherwise [1] plus the number of blank lines after the
    first line. *)
Theorem day1_group_count (input : rstr) (r : list N) :
  group_stashes input = Ok r ->
  List.length r = match lines input with
                  | [] => O
                  | _ :: ls => S (List.length (filter is_blank ls))
                  end.
Proof.
  unfold group_stashes. destruct (lines input) as [|l ls]; simpl.
  - intros [= <-]. reflexivity.
  - destruct (group_step [] l) as [acc|] eqn:E; [|discriminate]. intros H.
    assert (Hacc : acc <> [] /\ List.length acc = 1%nat).
    { unfold group_step in E. destruct l as [|c l].
      - inversion E; subst. split; [discriminate|reflexivity].
      - destruct (parse_calories (c :: l)); simpl in E; inversion E; subst.
        split; [discriminate|reflexivity]. }
    rewrite (try_fold_group_length ls acc r (proj1 Hacc) H), (proj2 Hacc). reflexivity.
Qed.

Lemma day1_group_count_witness :
  group_stashes (str "1
2

3


4") = Ok [3; 3; 0; 4] /\
  List.length [3; 3; 0; 4] = match lines (str "1
2

3


4") with
                  | [] => O
                  | _ :: ls => S (List.length (filter is_blank ls))
                  end.
Proof. split; [vm_compute; reflexivity|]. apply day1_group_count. vm_compute; reflexivity. Defined.

(** The groups of [group_stashes] add up to the sum of the numbers on
    all lines: no number is lost or counted twice. *)
Theorem day1_group_sum (input : rstr) (r : list N) :
  group_stashes input = Ok r -> list_sum r = list_sum (map line_value (lines input)).
Proof. unfold group_stashes. intros H. rewrite (try_fold_group_sum _ [] r H). reflexivity. Qed.

Lemma day1_group_sum_witness :
  group_stashes (str "1
2

3") = Ok [3; 3] /\
  list_sum [3; 3] = list_sum (map line_value (lines (str "1
2

3"))).
Proof. split; [vm_compute; reflexivity|]. apply day1_group_sum. vm_compute; reflexivity. Defined.

(** A non-blank line that is not a number makes [group_stashes], and so
    both parts, fail, wherever the line is. *)
Theorem day1_bad_line_fails (input l : rstr) (e : Report) :
  In l (lines input) -> l <> [] -> parse_calories l = Err e ->
  (exists e1, group_stashes input = Err e1) /\
  (exists e1, part1 input = Err e1) /\ (exists e2, part2 input = Err e2).
Proof.
  intros Hin Hne He. destruct (try_fold_group_err _ [] l e Hin Hne He) as [e' H'].
  unfold part1, part2. fold (group_stashes input) in H'. rewrite H'.
  split; [now exists e'|]. split; now exists e'.
Qed.

Lemma day1_bad_line_fails_witness :
  (In (str "x") (lines (str "1
x
2")) /\ str "x" <> [] /\ parse_calories (str "x") = Err ParseError) /\
  ((exists e1, group_stashes (str "1
x
2") = Err e1) /\
   (exists e1, part1 (str "1
x
2") = Err e1) /\ (exists e2, part2 (str "1
x
2") = Err e2)).
Proof.
  split; [split; [vm_compute; tauto|split; [discriminate|reflexivity]]|].
  apply (day1_bad_line_fails _ (str "x") ParseError); [vm_compute; tauto|discriminate|reflexivity].
Defined.

(** When every non-blank line is a number and all numbers together fit
    in a [usize], neither part fails. *)
Theorem day1_parts_succeed (input : rstr) :
  (forall l, In l (lines input) -> l <> [] -> exists v, parse_calories l = Ok v) ->
  list_sum (map line_value (lines input)) <= usize_max ->
  (exists m, part1 input = Ok m) /\ (exists s, part2 input = Ok s).
Proof.
  intros Hp Hle. destruct (try_fold_group_ok (lines input) [] Hp ltac:(simpl; lia)) as [g Hg].
  fold (group_stashes input) in Hg. unfold part1, part2. rewrite Hg. simpl.
  split; [eexists; reflexivity|].
  pose proof (day1_group_sum input g Hg) as Hs.
  unfold sum_usize. rewrite sum_usize_fits; [eexists; reflexivity|].
  rewrite multi_max_skipn. pose proof (list_sum_skipn_le (List.length g - 3) (sort g)).
  rewrite (list_sum_perm _ _ (sort_perm g)) in H. lia.
Qed.

Lemma day1_parts_succeed_witness :
  ((forall l, In l (lines (str "7
8

9")) -> l <> [] -> exists v, parse_calories l = Ok v) /\
   list_sum (map line_value (lines (str "7
8

9"))) <= usize_max) /\
  ((exists m, part1 (str "7
8

9") = Ok m) /\ (exists s, part2 (str "7
8

9") = Ok s)).
Proof.
  assert (Hp : forall l, In l (lines (str "7
8

9")) -> l <> [] -> exists v, parse_calories l = Ok v).
  { intros l Hl Hne. vm_compute in Hl.
    repeat destruct Hl as [<-|Hl]; [exists 7|exists 8|contradiction|exists 9|destruct Hl]; reflexivity. }
  assert (Hle : list_sum (map line_value (lines (str "7
8

9"))) <= usize_max) by (vm_compute; discriminate).
  split; [split; assumption|]. apply day1_parts_succeed; assumption.
Defined.

(** Part 1 is the largest group total: no group exceeds it, and it is
    one of the groups, or [0] when there is no group. *)
Theorem day1_part1_is_max (input : rstr) (m : N) :
  part1 input = Ok m ->
  exists g, group_stashes input = Ok g /\ Forall (fun x => x <= m) g /\
            (In m g \/ (g = [] /\ m = 0)).
Proof.
  unfold part1. destruct (group_stashes input) as [g|] eqn:E; simpl; [|discriminate].
  intros [= <-]. exists g. split; [reflexivity|].
  destruct (fold_max_spec g 0) as [_ [Hall Hin]]. unfold max_or_default.
  split; [exact Hall|]. destruct Hin as [H0|Hin]; [|now left].
  destruct g as [|x g]; [right; split; [reflexivity|exact H0]|].
  left. left. inversion Hall; subst. rewrite H0 in *. lia.
Qed.

Lemma day1_part1_is_max_witness :
  part1 (str "1
2

3") = Ok 3 /\
  exists g, group_stashes (str "1
2

3") = Ok g /\ Forall (fun x => x <= 3) g /\ (In 3 g \/ (g = [] /\ 3 = 0)).
Proof. split; [vm_compute; reflexivity|]. apply day1_part1_is_max. vm_compute; reflexivity. Defined.

(** Part 2 succeeds only if part 1 does, and lies between part 1 and
    three times part 1: it adds up at most three group totals, one of
    them at least the largest. *)
Theorem day1_part2_bounds (input : rstr) (s : N) :
  part2 input = Ok s ->
  exists m, part1 input = Ok m /\ m <= s /\ s <= 3 * m.
Proof.
  unfold part2, part1. destruct (group_stashes input) as [g|] eqn:E; simpl; [|discriminate].
  intros Hs. unfold sum_usize in Hs. apply sum_usize_ok in Hs. simpl in Hs.
  exists (max_or_default g). split; [reflexivity|].
  destruct (fold_max_spec g 0) as [_ [Hall Hin]]. fold (max_or_default g) in Hall, Hin.
  set (m := max_or_default g) in *.
  assert (Hup : s <= 3 * m).
  { rewrite Hs. destruct (multi_max_inv 3 g) as [_ [_ Hl]].
    assert (Hb : Forall (fun x => x <= m) (multi_max g 3)).
    { rewrite Forall_forall in *. intros x Hx. apply Hall, (multi_max_incl 3), Hx. }
    pose proof (list_sum_le_bound m _ Hb). rewrite Hl in H.
    assert (N.of_nat (Nat.min 3 (List.length g)) <= 3) by lia. nia. }
  split; [|exact Hup].
  destruct g as [|x g'].
  - destruct Hin as [H0|[]]. rewrite H0. lia.
  - assert (Hm : In m (x :: g')).
    { destruct Hin as [H0|Hin]; [|exact Hin]. left. inversion Hall; subst. rewrite H0 in *; lia. }
    destruct (multi_max_has_max 3 (x :: g') m ltac:(lia) Hm Hall) as [y [Hy Hmy]].
    pose proof (In_le_list_sum y _ Hy). lia.
Qed.

Lemma day1_part2_bounds_witness :
  part2 (str "1
2

3

4") = Ok 10 /\
  exists m, part1 (str "1
2

3

4") = Ok m /\ m <= 10 /\ 10 <= 3 * m.
Proof. split; [vm_compute; reflexivity|]. apply day1_part2_bounds. vm_compute; reflexivity. Defined.

(** Decimal round trip: [parse_calories] reads back the decimal form of
    every number that fits in a [usize], with or without a leading [+],
    and rejects the decimal form of every larger number. *)
Theorem day1_parse_decimal_roundtrip (n : N) :
  parse_calories (to_decimal n) = (if n <=? usize_max then Ok n else Err ParseError) /\
  parse_calories (43 :: to_decimal n) = (if n <=? usize_max then Ok n else Err ParseError).
Proof.
  destruct (to_decimal_spec n) as [Hv [x [rest [E Hx]]]].
  assert (Hds : match to_decimal n with 43 :: s' => s' | _ => to_decimal n end = to_decimal n).
  { rewrite E. exact (digit_not_plus x Hx _ _ _). }
  unfold parse_calories, parse_usize. split.
  - cbv zeta. rewrite Hds, Hv, E. reflexivity.
  - cbv zeta. cbn iota. rewrite Hv, E. reflexivity.
Qed.

End Day1Props.

(** ** Day 2 *)
Section Day2Props.
Import Day2 Day2Extras.

(** [parse_round] and [parse_constraint] accept exactly the same lines,
    read the same opponent move from them, and reject the other lines
    with the same error: the two letter sets [X], [Y], [Z] coincide. *)
Theorem day2_parsers_agree (s : rstr) :
  match Day2.parse_round s, Day2.parse_constraint s with
  | Ok (o, _), Ok (o', _) => o = o'
  | Err e, Err e' => e = e'
  | _, _ => False
  end.
Proof.
  unfold parse_round, parse_constraint. destruct (negb (Nat.eqb (str_len s) 3)); [reflexivity|].
  destruct (next s) as [c1 rest]. destruct (OpponentMove_parse c1); simpl; [|reflexivity].
  destruct (next rest) as [c2 rest']. destruct (next rest') as [c3 rest''].
  pose proof (PlayerMove_parse_agree c3) as H. unfold agree in *.
  destruct (PlayerMove_parse c3), (PlayerConstraint_parse c3); simpl; auto.
Qed.

(** The lines [parse_round] accepts are exactly the three-character lines
    made of [A], [B] or [C], one one-byte separator of any kind, and [X],
    [Y] or [Z]. *)
Theorem day2_parse_round_accepts (s : rstr) (o : OpponentMove) (p : PlayerMove) :
  Day2.parse_round s = Ok (o, p) <->
  exists a m b, s = [a; m; b] /\ (m < 128)%N /\
    OpponentMove_parse (Some a) = Ok o /\ PlayerMove_parse (Some b) = Ok p.
Proof. apply ParseFacts.parse_round_ok_iff. Qed.

(** [parse_round] reports the end of the input exactly on the lines of
    three bytes but fewer than three characters that start with [A], [B]
    or [C] (such as ["A\u{e9}"]): the byte check passes, and the third
    [chars().next()] finds nothing. *)
Theorem day2_unexpected_end (s : rstr) :
  Day2.parse_round s = Err UnexpectedEnd <->
  str_len s = 3 /\ List.length s < 3 /\ exists o, OpponentMove_parse (hd_error s) = Ok o.
Proof.
  unfold parse_round. destruct (Nat.eqb_spec (str_len s) 3) as [Hlen|Hlen]; cbn -[str_len].
  2: { split; [discriminate|]. intros [H _]; contradiction. }
  destruct s as [|a s]; [discriminate Hlen|].
  cbn -[OpponentMove_parse PlayerMove_parse str_len].
  destruct (OpponentMove_parse (Some a)) as [o|e] eqn:Ho; cbn -[OpponentMove_parse PlayerMove_parse str_len].
  - destruct s as [|m s]; cbn -[OpponentMove_parse PlayerMove_parse str_len].
    + split; [intros _; split; [exact Hlen|split; [simpl; lia|now exists o]]|reflexivity].
    + destruct s as [|b s]; cbn -[OpponentMove_parse PlayerMove_parse str_len].
      * split; [intros _; split; [exact Hlen|split; [simpl; lia|now exists o]]|reflexivity].
      * split; [|intros [_ [Hl _]]; simpl in Hl; lia].
        destruct (PlayerMove_parse (Some b)) eqn:Hp; simpl; [discriminate|].
        intros [= ->]. exfalso. exact (PlayerMove_parse_not_end b Hp).
  - split; [intros [= ->]; exfalso; exact (OpponentMove_parse_not_end a Ho)|].
    intros [_ [_ [o Ho']]]. simpl in Ho'. congruence.
Qed.

Lemma day2_unexpected_end_witness :
  Day2.parse_round [65; 233]%N = Err UnexpectedEnd /\
  str_len [65; 233]%N = 3 /\ List.length [65; 233]%N < 3 /\
  exists o, OpponentMove_parse (hd_error [65; 233]%N) = Ok o.
Proof.
  split; [reflexivity|]. apply (proj1 (day2_unexpected_end [65; 233]%N)). reflexivity.
Defined.

(** [reconstruct_rounds] never fails: it keeps every round and its
    opponent move, and pairs it with a player move whose round outcome is
    the one the constraint asks for. *)
Theorem day2_reconstruct_rounds (rs : list (OpponentMove * PlayerConstraint)) :
  exists out, Day2.reconstruct_rounds rs = Ok out /\ map fst out = map fst rs /\
    Forall2 (fun (oc : OpponentMove * PlayerConstraint) (om : OpponentMove * PlayerMove) =>
               exists r, evaluate_round (fst om) (snd om) = Ok r /\
                         Round_eq_constraint r (snd oc) = true) rs out.
Proof. apply reconstruct_rounds_spec. Qed.

Lemma part1_shape (input : rstr) :
  (9 * N.of_nat (List.length (lines input)) <= Day1.usize_max)%N ->
  match collect (map parse_round (lines input)) with
  | Ok _ => exists s, Day2.part1 input = Ok s
  | Err e => Day2.part1 input = Err e
  end.
Proof.
  intros Hb. unfold part1, parse_rounds.
  destruct (collect (map parse_round (lines input))) as [rs|e] eqn:E; simpl; [|reflexivity].
  apply score_rounds_ok. apply collect_map_ok, Forall2_length in E. rewrite <- E. exact Hb.
Qed.

Lemma part2_shape (input : rstr) :
  (9 * N.of_nat (List.length (lines input)) <= Day1.usize_max)%N ->
  match collect (map parse_constraint (lines input)) with
  | Ok _ => exists s, Day2.part2 input = Ok s
  | Err e => Day2.part2 input = Err e
  end.
Proof.
  intros Hb. unfold part2, parse_rounds.
  destruct (collect (map parse_constraint (lines input))) as [rs|e] eqn:E; simpl; [|reflexivity].
  destruct (reconstruct_rounds_spec rs) as [out [Hout [Hf _]]]. rewrite Hout. simpl.
  apply score_rounds_ok. apply collect_map_ok, Forall2_length in E.
  apply (f_equal (@List.length _)) in Hf. rewrite !length_map in Hf. rewrite Hf, <- E. exact Hb.
Qed.

(** Unless the input has more lines than a [usize] can score, part 1
    (part 2) succeeds exactly when every line parses as a round (as a
    constraint round): the scoring and the move reconstruction never fail. *)
Theorem day2_parts_ok_iff (input : rstr) :
  (9 * N.of_nat (List.length (lines input)) <= Day1.usize_max)%N ->
  ((exists s, Day2.part1 input = Ok s) <->
     Forall (fun l => exists x, Day2.parse_round l = Ok x) (lines input)) /\
  ((exists s, Day2.part2 input = Ok s) <->
     Forall (fun l => exists x, Day2.parse_constraint l = Ok x) (lines input)).
Proof.
  intros Hb. pose proof (part1_shape input Hb) as H1. pose proof (part2_shape input Hb) as H2.
  rewrite <- !collect_map_ok_iff.
  destruct (collect (map parse_round (lines input))) as [rs|e];
    destruct (collect (map parse_constraint (lines input))) as [rs'|e'].
  all: split; split; intros [x Hx].
  all: first [exact H1 | exact H2 | exists rs; reflexivity | exists rs'; reflexivity | congruence].
Qed.

Lemma day2_parts_ok_iff_witness :
  (9 * N.of_nat (List.length (lines (str "A Y
B X"))) <= Day1.usize_max)%N /\
  (((exists s, Day2.part1 (str "A Y
B X") = Ok s) <->
     Forall (fun l => exists x, Day2.parse_round l = Ok x) (lines (str "A Y
B X"))) /\
  ((exists s, Day2.part2 (str "A Y
B X") = Ok s) <->
     Forall (fun l => exists x, Day2.parse_constraint l = Ok x) (lines (str "A Y
B X")))).
Proof.
  assert (Hb : (9 * N.of_nat (List.length (lines (str "A Y
B X"))) <= Day1.usize_max)%N) by (vm_compute; discriminate).
  split; [exact Hb|]. exact (day2_parts_ok_iff _ Hb).
Defined.

(** Unless the input has more lines than a [usize] can score, part 1 and
    part 2 fail on the same inputs and with the same error: the error of
    the first line that does not parse. *)
Theorem day2_parts_fail_alike (input : rstr) (e : Report) :
  (9 * N.of_nat (List.length (lines input)) <= Day1.usize_max)%N ->
  (Day2.part1 input = Err e <-> Day2.part2 input = Err e).
Proof.
  intros Hb. pose proof (part1_shape input Hb) as H1. pose proof (part2_shape input Hb) as H2.
  pose proof (collect_map_agree parse_round parse_constraint (lines input) parsers_agree) as Ha.
  destruct (collect (map parse_round (lines input))) as [rs|e1];
    destruct (collect (map parse_constraint (lines input))) as [rs'|e2]; try contradiction.
  - destruct H1 as [s1 H1], H2 as [s2 H2]. rewrite H1, H2. split; discriminate.
  - rewrite H1, H2, Ha. reflexivity.
Qed.

Lemma day2_parts_fail_alike_witness :
  (9 * N.of_nat (List.length (lines (str "A Y
B W"))) <= Day1.usize_max)%N /\
  (Day2.part1 (str "A Y
B W") = Err UnexpectedInput <-> Day2.part2 (str "A Y
B W") = Err UnexpectedInput).
Proof.
  assert (Hb : (9 * N.of_nat (List.length (lines (str "A Y
B W"))) <= Day1.usize_max)%N) by (vm_compute; discriminate).
  split; [exact Hb|]. exact (day2_parts_fail_alike _ UnexpectedInput Hb).
Defined.

(** Each round scores between 1 and 9, so a successful total of either
    part lies between the number of lines and nine times that number. *)
Theorem day2_part_bounds (input : rstr) (s : N) :
  Day2.part1 input = Ok s \/ Day2.part2 input = Ok s ->
  (N.of_nat (List.length (lines input)) <= s <= 9 * N.of_nat (List.length (lines input)))%N.
Proof.
  unfold part1, part2, parse_rounds. intros [H|H].
  - destruct (collect (map parse_round (lines input))) as [rs|] eqn:E; simpl in H; [|discriminate].
    apply collect_map_ok, Forall2_length in E. rewrite E. exact (score_rounds_bounds rs s H).
  - destruct (collect (map parse_constraint (lines input))) as [rs|] eqn:E; simpl in H; [|discriminate].
    destruct (reconstruct_rounds_spec rs) as [out [Hout [Hf _]]]. rewrite Hout in H. simpl in H.
    apply collect_map_ok, Forall2_length in E.
    apply (f_equal (@List.length _)) in Hf. rewrite !length_map in Hf.
    rewrite E, <- Hf. exact (score_rounds_bounds out s H).
Qed.

Lemma day2_part_bounds_witness :
  (Day2.part1 (str "A Y
B X
C Z") = Ok 15%N \/ Day2.part2 (str "A Y
B X
C Z") = Ok 15%N) /\
  (N.of_nat (List.length (lines (str "A Y
B X
C Z"))) <= 15 <= 9 * N.of_nat (List.length (lines (str "A Y
B X
C Z"))))%N.
Proof.
  assert (H : Day2.part1 (str "A Y
B X
C Z") = Ok 15%N \/ Day2.part2 (str "A Y
B X
C Z") = Ok 15%N) by (left; vm_compute; reflexivity).
  split; [exact H|]. exact (day2_part_bounds _ _ H).
Defined.

(** Every round scores, and its score has the closed form
    [3 * ((p - o + 1) mod 3) + p + 1] for moves numbered Rock 0, Paper 1,
    Scissors 2: the move one step ahead wins, the same move draws. *)
Theorem day2_round_score_mod3 (o : OpponentMove) (m : PlayerMove) :
  Day2.round_score o m =
  Ok (3 * ((player_index m + 4 - opponent_index o) mod 3) + player_index m + 1).
Proof. destruct o, m; reflexivity. Qed.

(** [desired_move] returns the move [(o + k) mod 3] where [k] is 0 for a
    draw, 1 for a win and 2 for a loss, so that a part 2 round scores
    [3 * k' + ((o + k) mod 3) + 1] with [k'] the outcome (0, 1 or 2) the
    constraint asks for. *)
Theorem day2_desired_move_mod3 (o : OpponentMove) (c : PlayerConstraint) :
  exists m, Day2.desired_move o c = Ok m /\
    player_index m = (opponent_index o + constraint_shift c) mod 3 /\
    Day2.round_score o m =
    Ok (3 * ((constraint_shift c + 1) mod 3) + (opponent_index o + constraint_shift c) mod 3 + 1).
Proof. destruct o, c; eexists; (split; [reflexivity|split; reflexivity]). Qed.

End Day2Props.

(** ** Day 3 *)
Section Day3Props.
Import Day3 GroupScoreFacts Day3Extras.

(** [split_at s k] succeeds exactly when [k] is a byte offset at a
    character boundary of [s], and then returns the two parts of [s] on
    either side of it. *)
Theorem day3_split_at_boundary (s a b : rstr) (k : nat) :
  Day3.split_at s k = Ok (a, b) <-> a ++ b = s /\ str_len a = k.
Proof. apply split_at_ok_iff. Qed.

(** Otherwise it panics (its only error), and no prefix of [s] is [k]
    bytes long. *)
Theorem day3_split_at_panics (s : rstr) (k : nat) (e : Report) :
  Day3.split_at s k = Err e -> e = Panic /\ ~ (exists a b, a ++ b = s /\ str_len a = k).
Proof.
  intros H. split; [exact (split_at_err s k e H)|].
  intros [a [b Hab]]. apply split_at_ok_iff in Hab. congruence.
Qed.

Lemma day3_split_at_panics_witness :
  Day3.split_at [233]%N 1 = Err Panic /\
  (Panic = Panic /\ ~ (exists a b, a ++ b = [233]%N /\ str_len a = 1)).
Proof. split; [reflexivity|]. apply day3_split_at_panics. reflexivity. Defined.

(** [calculate_item_type] on two compartments: it returns the common
    character when there is exactly one, [NoIntersection] when there is
    none, and [MoreThanOneIntersection] when there are two different
    ones, whatever the repetitions inside each compartment. *)
Theorem day3_item_type (x y : rstr) (c : N) :
  (Day3.calculate_item_type (Compartment_parse x) (Compartment_parse y) = Ok c <->
     forall z, In z x /\ In z y <-> z = c) /\
  (Day3.calculate_item_type (Compartment_parse x) (Compartment_parse y) = Err NoIntersection <->
     forall z, ~ (In z x /\ In z y)) /\
  (Day3.calculate_item_type (Compartment_parse x) (Compartment_parse y) = Err MoreThanOneIntersection <->
     exists z1 z2, z1 <> z2 /\ In z1 x /\ In z1 y /\ In z2 x /\ In z2 y).
Proof. apply item_type_spec. Qed.

(** On an ASCII line [Rucksack::parse] splits the line into its first
    [len / 2] characters and the rest (the middle character of an odd
    line goes to the second compartment), and succeeds exactly when the
    two parts share one character, which has a priority. *)
Theorem day3_rucksack_ascii (s : rstr) (r : Rucksack) :
  Forall (fun c => (c < 128)%N) s ->
  (Day3.Rucksack_parse s = Ok r <->
   contents r = s /\
   exists c, (forall z, In z (firstn (List.length s / 2) s) /\ In z (skipn (List.length s / 2) s) <-> z = c) /\
             calculate_priority c = Ok (priority r)).
Proof.
  intros Ha. unfold Rucksack_parse. rewrite (str_len_ascii s Ha).
  rewrite (split_at_ascii s _ Ha) by (apply Nat.Div0.div_le_upper_bound; lia).
  cbn [bind].
  destruct (calculate_item_type (Compartment_parse (firstn (List.length s / 2) s))
                                (Compartment_parse (skipn (List.length s / 2) s))) as [t|e] eqn:E.
  - pose proof (proj1 (proj1 (item_type_spec _ _ t)) E) as Ht. cbn [bind].
    split.
    + destruct (calculate_priority t) as [p|] eqn:Ep; cbn [bind]; [|discriminate].
      intros [= <-]. simpl. split; [reflexivity|]. now exists t.
    + intros [Hc [c [Hzc Hp]]].
      assert (c = t) as ->.
      { apply Ht. apply Hzc. reflexivity. }
      rewrite Hp. cbn [bind]. destruct r; simpl in *; subst; reflexivity.
  - cbn [bind]. split; [discriminate|].
    intros [_ [c [Hzc _]]]. apply (proj2 (proj1 (item_type_spec _ _ c))) in Hzc. congruence.
Qed.

Lemma day3_rucksack_ascii_witness :
  Forall (fun c => (c < 128)%N) (str "abca") /\
  (Day3.Rucksack_parse (str "abca") = Ok {| contents := str "abca"; priority := 1 |} <->
   contents {| contents := str "abca"; priority := 1 |} = str "abca" /\
   exists c, (forall z, In z (firstn (List.length (str "abca") / 2) (str "abca")) /\
                        In z (skipn (List.length (str "abca") / 2) (str "abca")) <-> z = c) /\
             calculate_priority c = Ok (priority {| contents := str "abca"; priority := 1 |})).
Proof.
  assert (Ha : Forall (fun c => (c < 128)%N) (str "abca")) by (repeat constructor).
  split; [exact Ha|]. exact (day3_rucksack_ascii _ _ Ha).
Defined.

(** Part 1 succeeds exactly when every line parses as a rucksack. *)
Theorem day3_part1_ok_iff (input : rstr) :
  (exists s, Day3.part1 input = Ok s) <->
  Forall (fun l => exists r, Rucksack_parse l = Ok r) (lines input).
Proof.
  rewrite <- Day2Extras.collect_map_ok_iff. unfold part1.
  destruct (collect (map Rucksack_parse (lines input))); simpl.
  - split; intros _; eexists; reflexivity.
  - split; intros [x Hx]; discriminate.
Qed.

(** Each rucksack scores between 1 and 52, so a successful part 1 lies
    between the number of lines and 52 times that number. *)
Theorem day3_part1_bounds (input : rstr) (s : nat) :
  Day3.part1 input = Ok s ->
  List.length (lines input) <= s <= 52 * List.length (lines input).
Proof.
  unfold part1. destruct (collect (map Rucksack_parse (lines input))) as [rs|] eqn:E;
    simpl; [|discriminate].
  intros [= <-]. apply Day2Extras.collect_map_ok in E.
  pose proof (Forall2_length E) as Hl.
  pose proof (Forall2_Forall_r _ (fun r => 1 <= priority r <= 52) _ _
                (fun l r H => Rucksack_parse_priority l r H) E) as Hp.
  unfold score_rucksacks. pose proof (sum_nat_bounds (map priority rs)) as Hs.
  rewrite length_map in Hs. rewrite Hl. apply Hs, Forall_map, Hp.
Qed.

Lemma day3_part1_bounds_witness :
  Day3.part1 day3_sample = Ok 157 /\
  List.length (lines day3_sample) <= 157 <= 52 * List.length (lines day3_sample).
Proof.
  assert (H : Day3.part1 day3_sample = Ok 157) by (vm_compute; reflexivity).
  split; [exact H|]. exact (day3_part1_bounds _ _ H).
Defined.

(** Part 2 scores one group per chunk of three lines, [(n + 2) / 3]
    groups for [n] lines, each between 1 and 52. *)
Theorem day3_part2_bounds (input : rstr) (s : nat) :
  Day3.part2 input = Ok s ->
  (List.length (lines input) + 2) / 3 <= s <= 52 * ((List.length (lines input) + 2) / 3).
Proof.
  unfold part2. destruct (collect (map Group_parse (chunks 3 (lines input)))) as [gs|] eqn:E;
    cbn [bind]; [|discriminate].
  unfold score_groups. destruct (collect (map Group_score gs)) as [ps|] eqn:Ep; cbn [rmap]; [|discriminate].
  intros [= <-]. apply Day2Extras.collect_map_ok in E, Ep.
  rewrite <- (chunks_fuel_length (List.length (lines input)) (lines input) (le_n _)).
  fold (chunks 3 (lines input)). rewrite (Forall2_length E), (Forall2_length Ep).
  apply sum_nat_bounds. exact (Forall2_Forall_r _ _ _ _ Group_score_range Ep).
Qed.

Lemma day3_part2_bounds_witness :
  Day3.part2 day3_sample = Ok 70 /\
  (List.length (lines day3_sample) + 2) / 3 <= 70 <= 52 * ((List.length (lines day3_sample) + 2) / 3).
Proof.
  assert (H : Day3.part2 day3_sample = Ok 70) by (vm_compute; reflexivity).
  split; [exact H|]. exact (day3_part2_bounds _ _ H).
Defined.

(** Part 2 parses every line as a part 1 rucksack, in the same order:
    when part 1 fails, part 2 fails with the same error. *)
Theorem day3_part2_fails_with_part1 (input : rstr) (e : Report) :
  Day3.part1 input = Err e -> Day3.part2 input = Err e.
Proof.
  unfold part1, part2. destruct (collect (map Rucksack_parse (lines input))) eqn:E;
    simpl; [discriminate|]. intros [= <-].
  rewrite <- (chunks_fuel_concat (List.length (lines input)) (lines input) (le_n _)) in E.
  apply collect_concat_err in E. fold (chunks 3 (lines input)) in E.
  unfold Group_parse. rewrite (collect_map_rmap_err _ _ _ _ E). reflexivity.
Qed.

Lemma day3_part2_fails_with_part1_witness :
  Day3.part1 (str "ab
aa") = Err NoIntersection /\ Day3.part2 (str "ab
aa") = Err NoIntersection.
Proof.
  assert (H : Day3.part1 (str "ab
aa") = Err NoIntersection) by (vm_compute; reflexivity).
  split; [exact H|]. exact (day3_part2_fails_with_part1 _ _ H).
Defined.

End Day3Props.

End Extras.
